(** * cc-forwarder: endpoint manager and error recovery, shallow embedding

    The development follows the Go sources

    - [internal/proxy/error_recovery.go]   (module [Proxy]),
    - [internal/endpoint/endpoint_selection.go], [endpoint_crud.go],
      [failover.go], [notification.go], [key_switch.go]
      (module [EndpointMgr]).

    Conventions of the embedding.

    - A Go [string] is a byte string: Rocq's [string] (a list of 8-bit
      [ascii]).  [len] is [String.length], slicing is [substring].
    - A Go [int] and a [time.Duration] (nanoseconds) are [Z].
    - A [time.Time] is the number of nanoseconds since the zero [Time]
      (January 1, year 1, 00:00:00 UTC), a [Z]; [IsZero] is equality with 0,
      [Before] is [<], [Add] is [+] (no saturation at the int64 range).
    - A Go [error] is [option GoError], [None] being [nil].
    - Locks are dropped: an operation that holds its lock from its first
      read to its last write is modelled as running atomically.
      [AddEndpoint] releases the list lock between its name check and its
      append; these are modelled as two functions, and [AddEndpoint] itself
      is the call that nothing interrupts between them.
    - [time.Now()] is an explicit argument [now]. *)

From Stdlib Require Import Ascii String QArith.
From stdpp Require Import base list strings gmap pretty sorting.

Local Open Scope Z_scope.

(** ** Go string helpers ([strings] package) *)

Module GoStrings.

(** The byte step of the ASCII branch of [strings.ToLower]:
    [if 'A' <= c && c <= 'Z' { c += 'a' - 'A' }]. *)
Definition lower_byte (c : ascii) : ascii :=
  let n := N_of_ascii c in
  if ((65 <=? n) && (n <=? 90))%N then ascii_of_N (n + 32) else c.

(** The test at the head of [strings.ToLower]: every byte of [s] is below
    [utf8.RuneSelf] (0x80). *)
Fixpoint isASCII (s : string) : bool :=
  match s with
  | EmptyString => true
  | String c s' => (N_of_ascii c <? 128)%N && isASCII s'
  end.

(** [strings.ToLower] as it runs on a text that passes [isASCII]: the
    letters [A-Z] are shifted to [a-z], byte by byte.  On a text with a
    byte from 0x80 up the library maps [unicode.ToLower] over the runes
    instead (U+0130 and U+212A become the ASCII letters i and k, invalid
    bytes become U+FFFD); that branch is not modelled, and on such a text
    this function keeps every byte from 0x80 up as it is. *)
Fixpoint ToLower (s : string) : string :=
  match s with
  | EmptyString => EmptyString
  | String c s' => String (lower_byte c) (ToLower s')
  end.

(** [strings.HasPrefix s prefix]. *)
Definition HasPrefix (s prefix : string) : bool := String.prefix prefix s.

(** [strings.Contains s substr]: [substr] starts at some offset of [s]. *)
Fixpoint Contains (s substr : string) : bool :=
  if HasPrefix s substr then true
  else match s with
       | EmptyString => false
       | String _ s' => Contains s' substr
       end.

(** The loop [for _, p := range pats { if strings.Contains(s, p) { return true } }]. *)
Definition ContainsAny (s : string) (pats : list string) : bool :=
  existsb (Contains s) pats.

(** [fmt.Sprintf("%d", n)]. *)
Definition Itoa (n : Z) : string := pretty n.

End GoStrings.

Import GoStrings.

(** ** Package [proxy]: error classification and retry policy *)

Module Proxy.

(** [type ErrorType int] with its [iota] constants, in declaration order. *)
Inductive ErrorType : Set :=
| ErrorTypeUnknown
| ErrorTypeNetwork
| ErrorTypeEOF
| ErrorTypeConnectionTimeout
| ErrorTypeResponseTimeout
| ErrorTypeTimeout
| ErrorTypeHTTP
| ErrorTypeServerError
| ErrorTypeStream
| ErrorTypeAuth
| ErrorTypeRateLimit
| ErrorTypeParsing
| ErrorTypeClientCancel
| ErrorTypeNoHealthyEndpoints.

#[global] Instance ErrorType_eq_dec : EqDecision ErrorType.
Proof. solve_decision. Defined.

(** The [syscall.Errno] values the classifier looks at. *)
Inductive Errno : Set :=
| ECONNREFUSED | ECONNRESET | ENETUNREACH | EHOSTUNREACH | ETIMEDOUT
| EOTHER (n : Z).

(** What the classifier can observe of a non-nil Go [error]: its text and
    the answers of [errors.Is] / [errors.As] along its wrap chain. *)
Record GoError : Set := {
  Error : string;                        (* err.Error() *)
  isContextCanceled : bool;              (* errors.Is(err, context.Canceled) *)
  isIoEOF : bool;                        (* errors.Is(err, io.EOF) *)
  isIoUnexpectedEOF : bool;              (* errors.Is(err, io.ErrUnexpectedEOF) *)
  isDeadlineExceeded : bool;             (* errors.Is(err, context.DeadlineExceeded) *)
  isHandlerTimeout : bool;               (* errors.Is(err, http.ErrHandlerTimeout) *)
  asNetOpError : option (string * bool); (* errors.As *net.OpError: (Op, Timeout()) *)
  asDNSError : bool;                     (* errors.As *net.DNSError *)
  asErrnoPtr : option Errno              (* errors.As *syscall.Errno *)
}.

Definition error : Set := option GoError.

(** [errors.New(text)] / [fmt.Errorf(text)]: an error with a text and an
    empty wrap chain. *)
Definition errors_New (text : string) : GoError :=
  {| Error := text; isContextCanceled := false; isIoEOF := false;
     isIoUnexpectedEOF := false; isDeadlineExceeded := false;
     isHandlerTimeout := false; asNetOpError := None; asDNSError := false;
     asErrnoPtr := None |}.

Definition Duration := Z.
Definition Second : Duration := 1000000000.
Definition Minute : Duration := 60 * Second.

(** [tracking.UpdateOptions], the fields the recovery manager fills in. *)
Record UpdateOptions : Set := {
  uoEndpointName : option string;
  uoGroupName : option string;
  uoStatus : option string;
  uoRetryCount : option Z;
  uoHttpStatus : option Z
}.

(** The usage tracker is a collaborator outside this package; it is
    observed through the sequence of [RecordRequestUpdate(id, opts)] calls
    it has received, oldest first. *)
Definition UsageTracker : Set := list (string * UpdateOptions).

Definition RecordRequestUpdate (t : UsageTracker) (requestID : string)
    (opts : UpdateOptions) : UsageTracker :=
  t ++ [(requestID, opts)].

Record ErrorContext : Set := {
  RequestID : string;
  EndpointName : string;
  GroupName : string;
  AttemptCount : Z;
  ErrorType_ : ErrorType;            (* field [ErrorType] *)
  OriginalError : error;
  RetryableAfter : Duration;
  MaxRetries : Z
}.

(** [backoffFactor] is a [float64] in the source; the model computes with
    exact rationals. *)
Record ErrorRecoveryManager : Type := {
  usageTracker : option UsageTracker;  (* [None] is the nil pointer *)
  maxRetries : Z;
  baseDelay : Duration;
  maxDelay : Duration;
  backoffFactor : Q
}.

Definition NewErrorRecoveryManager (tracker : option UsageTracker)
    : ErrorRecoveryManager :=
  {| usageTracker := tracker;
     maxRetries := 3;
     baseDelay := Second;
     maxDelay := 30 * Second;
     backoffFactor := 2 |}.

Definition SetRetryPolicy (erm : ErrorRecoveryManager) (maxRetries' : Z)
    (baseDelay' maxDelay' : Duration) (backoffFactor' : Q)
    : ErrorRecoveryManager :=
  {| usageTracker := usageTracker erm;
     maxRetries := maxRetries';
     baseDelay := baseDelay';
     maxDelay := maxDelay';
     backoffFactor := backoffFactor' |}.

(** Conversion [time.Duration(f)] of a float: truncation toward zero. *)
Definition truncQ (q : Q) : Z := Z.quot (Qnum q) (Zpos (Qden q)).

(** [baseDelay * backoffFactor^attempt], capped at [maxDelay].  The source
    multiplies in [float64] and converts the product to an int64; here the
    products are exact rationals and the conversion is [truncQ].  The two
    agree where every product is a whole number below 2^53, which [float64]
    holds exactly; outside that range (a fractional factor that is not a
    binary fraction, a product that rounds or leaves the int64 range) this
    function is the exact value, not the rounded one of the source. *)
Definition calculateBackoffDelay (erm : ErrorRecoveryManager) (attempt : Z)
    : Duration :=
  if attempt <=? 0 then baseDelay erm
  else
    let result :=
      Nat.iter (Z.to_nat attempt) (fun r => Qred (r * backoffFactor erm)%Q) 1%Q in
    let delay := truncQ (inject_Z (baseDelay erm) * result)%Q in
    if delay >? maxDelay erm then maxDelay erm else delay.

Definition isNetworkError (err : error) : bool :=
  match err with
  | None => false
  | Some e =>
    match asNetOpError e with
    | Some (_, timeout) => if timeout then false else true
    | None =>
      if asDNSError e then true
      else if match asErrnoPtr e with
              | Some (ECONNREFUSED | ECONNRESET | ENETUNREACH | EHOSTUNREACH) => true
              | _ => false
              end then true
      else
        ContainsAny (ToLower (Error e))
          ["connection reset"; "connection refused"; "connection closed";
           "network is unreachable"; "no route to host"; "broken pipe";
           "upstream connect"; "connect error";
           "stream reset"]
    end
  end.

Definition isEOFError (err : error) : bool :=
  match err with
  | None => false
  | Some e =>
    if isIoEOF e || isIoUnexpectedEOF e then true
    else ContainsAny (ToLower (Error e)) ["eof"; "unexpected eof"]
  end.

Definition isConnectionTimeoutError (err : error) : bool :=
  match err with
  | None => false
  | Some e =>
    if ContainsAny (ToLower (Error e))
         ["dial timeout"; "dial tcp"; "connection timed out";
          "connect timeout"; "dial i/o timeout"] then true
    else match asNetOpError e with
         | Some (op, timeout) => bool_decide (op = "dial") && timeout
         | None => false
         end
  end.

Definition isTimeoutError (err : error) : bool :=
  match err with
  | None => false
  | Some e =>
    if isDeadlineExceeded e then true
    else if isHandlerTimeout e then true
    else if match asErrnoPtr e with Some ETIMEDOUT => true | _ => false end
    then true
    else
      ContainsAny (ToLower (Error e))
        ["timeout"; "deadline exceeded"; "context deadline exceeded";
         "i/o timeout"; "read timeout"; "write timeout"; "operation timed out"]
  end.

Definition isClientCancelError (err : error) : bool :=
  match err with
  | None => false
  | Some e =>
    if isContextCanceled e then true
    else
      ContainsAny (ToLower (Error e))
        ["context canceled"; "canceled"; "client disconnected";
         "connection closed by client"; "client gone away"]
  end.

(** The assignment pair [errorCtx.ErrorType = ty; errorCtx.RetryableAfter = d]. *)
Definition classified (c : ErrorContext) (ty : ErrorType) (d : Duration)
    : ErrorContext :=
  {| RequestID := RequestID c; EndpointName := EndpointName c;
     GroupName := GroupName c; AttemptCount := AttemptCount c;
     ErrorType_ := ty; OriginalError := OriginalError c;
     RetryableAfter := d; MaxRetries := MaxRetries c |}.

(** The textual test of the rate-limit branch. *)
Definition rateLimitText (errStr : string) : bool :=
  Contains errStr "rate" || Contains errStr "429" ||
  Contains errStr "quota" || Contains errStr "limit" ||
  Contains errStr "endpoint returned error: 429" ||
  Contains errStr "endpoint returned error: 400" ||
  Contains errStr "400" ||
  Contains errStr "too many requests" || Contains errStr "rate_limit" ||
  Contains errStr "throttle" || Contains errStr "quota exceeded".

Definition serverErrorText (errStr : string) : bool :=
  Contains errStr "endpoint returned error: 5" ||
  Contains errStr "500" || Contains errStr "501" ||
  Contains errStr "502" || Contains errStr "503" ||
  Contains errStr "504" || Contains errStr "505" ||
  Contains errStr "520" || Contains errStr "521" ||
  Contains errStr "522" || Contains errStr "523" ||
  Contains errStr "524" || Contains errStr "525".

Definition authText (errStr : string) : bool :=
  Contains errStr "auth" || Contains errStr "unauthorized" ||
  Contains errStr "401".

Definition streamText (errStr : string) : bool :=
  HasPrefix errStr "stream_status:" ||
  Contains errStr "streaming not supported" ||
  Contains errStr "stream_error" ||
  Contains errStr "sse" ||
  Contains errStr "event-stream" ||
  Contains errStr "stream parsing".

Definition httpText (errStr : string) : bool :=
  (Contains errStr "http" || Contains errStr "status" ||
   Contains errStr "endpoint returned error") &&
  negb (Contains errStr "endpoint returned error: 5") &&
  negb (Contains errStr "429") && negb (Contains errStr "rate") &&
  negb (Contains errStr "400") &&
  negb (Contains errStr "endpoint returned error: 400").

Definition ClassifyError (erm : ErrorRecoveryManager) (err : error)
    (requestID endpoint group : string) (attempt : Z) : ErrorContext :=
  let errorCtx :=
    {| RequestID := requestID; EndpointName := endpoint; GroupName := group;
       AttemptCount := attempt; ErrorType_ := ErrorTypeUnknown;
       OriginalError := err; RetryableAfter := 0;
       MaxRetries := maxRetries erm |} in
  match err with
  | None => errorCtx
  | Some e =>
    let errStr := ToLower (Error e) in
    if isClientCancelError err then
      classified errorCtx ErrorTypeClientCancel 0
    else if isEOFError err then
      classified errorCtx ErrorTypeEOF 0
    else if isConnectionTimeoutError err then
      classified errorCtx ErrorTypeConnectionTimeout
        (calculateBackoffDelay erm attempt)
    else if isTimeoutError err then
      classified errorCtx ErrorTypeResponseTimeout 0
    else if isNetworkError err then
      classified errorCtx ErrorTypeNetwork (calculateBackoffDelay erm attempt)
    else if rateLimitText errStr then
      classified errorCtx ErrorTypeRateLimit Minute
    else if serverErrorText errStr then
      classified errorCtx ErrorTypeServerError
        (calculateBackoffDelay erm attempt)
    else if authText errStr then
      classified errorCtx ErrorTypeAuth 0
    else if streamText errStr then
      if Contains errStr "streaming not supported" then
        classified errorCtx ErrorTypeUnknown 0
      else
        classified errorCtx ErrorTypeStream (calculateBackoffDelay erm attempt)
    else if httpText errStr then
      classified errorCtx ErrorTypeHTTP 0
    else if Contains errStr "no healthy endpoints available" then
      classified errorCtx ErrorTypeNoHealthyEndpoints 0
    else
      classified errorCtx ErrorTypeUnknown (calculateBackoffDelay erm attempt)
  end.

(** [ShouldRetry] reads only the context (the receiver is unused). *)
Definition ShouldRetry (errorCtx : ErrorContext) : bool :=
  if AttemptCount errorCtx >=? MaxRetries errorCtx then false
  else
    match ErrorType_ errorCtx with
    | ErrorTypeClientCancel => false
    | ErrorTypeEOF => false
    | ErrorTypeResponseTimeout | ErrorTypeTimeout => false
    | ErrorTypeConnectionTimeout => true
    | ErrorTypeNetwork => true
    | ErrorTypeServerError => true
    | ErrorTypeStream => false
    | ErrorTypeHTTP => false
    | ErrorTypeRateLimit => true
    | ErrorTypeAuth => false
    | ErrorTypeParsing => true
    | _ => false
    end.

(** The [switch] of [HandleFinalFailure] that picks the terminal status. *)
Definition finalStatus (ty : ErrorType) : string :=
  match ty with
  | ErrorTypeClientCancel => "cancelled"
  | ErrorTypeTimeout | ErrorTypeResponseTimeout => "timeout"
  | ErrorTypeConnectionTimeout => "connection_timeout"
  | ErrorTypeEOF => "eof_interrupted"
  | ErrorTypeAuth => "auth_error"
  | ErrorTypeRateLimit => "rate_limited"
  | ErrorTypeServerError => "server_error"
  | ErrorTypeStream => "stream_error"
  | _ => "error"
  end.

(** [HandleFinalFailure]: its only effect besides logging is one
    [RecordRequestUpdate] call, made when a tracker is attached and the
    request id is not empty. *)
Definition HandleFinalFailure (erm : ErrorRecoveryManager)
    (errorCtx : ErrorContext) : ErrorRecoveryManager :=
  match usageTracker erm with
  | Some tracker =>
    if negb (bool_decide (RequestID errorCtx = "")) then
      let status := finalStatus (ErrorType_ errorCtx) in
      let opts :=
        {| uoEndpointName := Some (EndpointName errorCtx);
           uoGroupName := Some (GroupName errorCtx);
           uoStatus := Some status;
           uoRetryCount := Some (AttemptCount errorCtx);
           uoHttpStatus := Some 0 |} in
      {| usageTracker :=
           Some (RecordRequestUpdate tracker (RequestID errorCtx) opts);
         maxRetries := maxRetries erm; baseDelay := baseDelay erm;
         maxDelay := maxDelay erm; backoffFactor := backoffFactor erm |}
    else erm
  | None => erm
  end.

(** [RecoverFromPartialData]: besides logging, one [RecordRequestUpdate]
    carrying only the status, when the data is not empty, mentions "usage"
    or "tokens" (matched on the raw bytes) and a tracker is attached. *)
Definition RecoverFromPartialData (erm : ErrorRecoveryManager)
    (requestID : string) (partialData : string) : ErrorRecoveryManager :=
  if (String.length partialData =? 0)%nat then erm
  else
    let dataStr := partialData in
    if Contains dataStr "usage" || Contains dataStr "tokens" then
      match usageTracker erm with
      | Some tracker =>
        let opts :=
          {| uoEndpointName := None; uoGroupName := None;
             uoStatus := Some "partial_recovery";
             uoRetryCount := None; uoHttpStatus := None |} in
        {| usageTracker := Some (RecordRequestUpdate tracker requestID opts);
           maxRetries := maxRetries erm; baseDelay := baseDelay erm;
           maxDelay := maxDelay erm; backoffFactor := backoffFactor erm |}
      | None => erm
      end
    else erm.

(** [func (et ErrorType) String() string] *)
Definition ErrorType_String (et : ErrorType) : string :=
  match et with
  | ErrorTypeNetwork => "网络"
  | ErrorTypeEOF => "EOF中断"
  | ErrorTypeConnectionTimeout => "连接超时"
  | ErrorTypeResponseTimeout => "响应超时"
  | ErrorTypeTimeout => "超时"
  | ErrorTypeHTTP => "HTTP"
  | ErrorTypeServerError => "服务器"
  | ErrorTypeStream => "流处理"
  | ErrorTypeAuth => "认证"
  | ErrorTypeRateLimit => "限流"
  | ErrorTypeParsing => "解析"
  | ErrorTypeClientCancel => "客户端取消"
  | _ => "未知"
  end.

Definition getErrorTypeName (errorType : ErrorType) : string :=
  ErrorType_String errorType.

(** The text under which an upstream HTTP status reaches the classifier,
    [endpoint returned error: <code>]: the literal the rate-limit branch
    matches for 429 and 400 and whose prefix the HTTP branch matches.  The
    forwarder code that formats it is outside these sources. *)
Definition statusError (code : Z) : GoError :=
  errors_New ("endpoint returned error: " +:+ Itoa code).

(** *** Vocabulary of the specification *)

(** The wording of the rate-limit row that is not a status code: rate
    language, quota or throttle text. *)
Definition rateLanguage (errStr : string) : bool :=
  ContainsAny errStr
    ["rate"; "quota"; "limit"; "too many requests"; "rate_limit";
     "throttle"; "quota exceeded"].

(** The list of kinds the specification calls final. *)
Definition finalKinds : list ErrorType :=
  [ErrorTypeEOF; ErrorTypeResponseTimeout; ErrorTypeStream; ErrorTypeHTTP;
   ErrorTypeAuth; ErrorTypeUnknown; ErrorTypeClientCancel].

(** The terminal status of each kind, as the specification lists them. *)
Definition statusTable : list (ErrorType * string) :=
  [(ErrorTypeEOF, "eof_interrupted");
   (ErrorTypeClientCancel, "cancelled");
   (ErrorTypeResponseTimeout, "timeout");
   (ErrorTypeTimeout, "timeout");
   (ErrorTypeConnectionTimeout, "connection_timeout");
   (ErrorTypeAuth, "auth_error");
   (ErrorTypeRateLimit, "rate_limited");
   (ErrorTypeServerError, "server_error");
   (ErrorTypeStream, "stream_error")].

Definition specStatus (ty : ErrorType) : string :=
  match list_find (λ p, fst p = ty) statusTable with
  | Some (_, (_, s)) => s
  | None => "error"
  end.

(** The earlier branches of [ClassifyError] all decline the error. *)
Definition reachesTextRules (e : GoError) : Prop :=
  isClientCancelError (Some e) = false ∧ isEOFError (Some e) = false ∧
  isConnectionTimeoutError (Some e) = false ∧
  isTimeoutError (Some e) = false ∧ isNetworkError (Some e) = false.

(** [text] contains [pat] written in some mix of letter cases. *)
Definition mentions (text pat : string) : Prop :=
  ∃ pre w post, text = pre +:+ w +:+ post ∧ ToLower w = pat.

Definition mentionsAny (text : string) (pats : list string) : Prop :=
  ∃ pat, pat ∈ pats ∧ mentions text pat.

(** The kinds [ShouldRetry] lets through below the cap. *)
Definition retriedKinds : list ErrorType :=
  [ErrorTypeConnectionTimeout; ErrorTypeNetwork; ErrorTypeServerError;
   ErrorTypeRateLimit; ErrorTypeParsing].

(** A reference manager and context to evaluate the kind on. *)
Definition kindOf (e : GoError) : ErrorType :=
  ErrorType_ (ClassifyError (NewErrorRecoveryManager None) (Some e) "" "" "" 0).

End Proxy.


(** ** [sort.Slice] *)

(** A strict weak ordering, what [sort.Slice] asks of its [less]. *)
Record StrictWeak {A} (less : A → A → bool) : Prop := {
  sw_irrefl : ∀ x, less x x = false;
  sw_trans : ∀ x y z, less x y = true → less y z = true → less x z = true;
  sw_incomp : ∀ x y z, less x y = false → less y z = false → less x z = false
}.

(** [sort.Slice(x, less)] is standard-library code.  Its documented
    contract: the slice is permuted so that no later element is [less] than
    an earlier one; equal elements may end up in any order. *)
Class SliceSorter := sort_Slice : ∀ {A}, (A → A → bool) → list A → list A.

Class SliceSorterLaws `{!SliceSorter} : Prop := {
  sort_Slice_perm : ∀ A (less : A → A → bool) l, sort_Slice less l ≡ₚ l;
  sort_Slice_sorted : ∀ A (less : A → A → bool) l,
    StrictWeak less →
    StronglySorted (λ x y, less y x = false) (sort_Slice less l)
}.

Module GoSort.

(** The inner loop of [insertionSortLessFunc]:
    [for j := i; j > a && less(j, j-1); j-- { swap(j, j-1) }].
    [rp] is the already sorted prefix [data[a:i]] read from [i-1] down to
    [a]; [x] is [data[i]]. *)
Fixpoint sink {A} (less : A → A → bool) (x : A) (rp : list A) : list A :=
  match rp with
  | y :: rp' => if less x y then y :: sink less x rp' else x :: rp
  | [] => [x]
  end.

(** [insertionSortLessFunc(data, 0, n)], the whole of [sort.Slice] on
    slices of at most 12 elements (Go 1.19 and later).  On longer slices the
    library runs pattern-defeating quicksort, which may order elements
    that compare equal differently; for those only the contract
    [SliceSorterLaws] describes [sort.Slice]. *)
Definition insertionSortLessFunc {A} (less : A → A → bool) (l : list A)
    : list A :=
  reverse (fold_left (λ rp x, sink less x rp) l []).

(** [sort.Slice] as it runs on slices of at most 12 elements. *)
#[export] Instance goSliceSorter : SliceSorter := @insertionSortLessFunc.

End GoSort.

(** ** Package [endpoint]: the endpoint manager *)

Module EndpointMgr.

Definition Time := Z.
Definition Duration := Z.
Definition Minute : Duration := 60 * 1000000000.

(** [time.Time{}] *)
Definition zeroTime : Time := 0.
Definition IsZero (t : Time) : bool := t =? 0.
Definition Before (t u : Time) : bool := t <? u.
Definition Add (t : Time) (d : Duration) : Time := t + d.

(** [config.TokenConfig] / [config.ApiKeyConfig]: a named credential. *)
Record KeyConfig : Set := { KeyName : string; Value : string }.

(** [config.EndpointConfig], the fields this package reads. *)
Record EndpointConfig : Set := {
  Name : string;
  URL : string;
  Group : string;
  Priority : Z;
  Token : string;
  ApiKey : string;
  Tokens : list KeyConfig;
  ApiKeys : list KeyConfig;
  FailoverEnabled : option bool;      (* *bool, nil = default true *)
  Cooldown : option Duration          (* *time.Duration *)
}.

Record EndpointStatus : Set := {
  Healthy : bool;
  LastCheck : Time;
  NeverChecked : bool;
  ResponseTime : Duration;
  ConsecutiveFails : Z;
  CooldownUntil : Time;
  CooldownReason : string
}.

Record Endpoint : Set := { Config : EndpointConfig; Status : EndpointStatus }.

#[global] Instance KeyConfig_eq_dec : EqDecision KeyConfig.
Proof. solve_decision. Defined.
#[global] Instance EndpointConfig_eq_dec : EqDecision EndpointConfig.
Proof. solve_decision. Defined.
#[global] Instance EndpointStatus_eq_dec : EqDecision EndpointStatus.
Proof. solve_decision. Defined.
#[global] Instance Endpoint_eq_dec : EqDecision Endpoint.
Proof. solve_decision. Defined.

Record FailoverConfig : Set := { Enabled : bool; DefaultCooldown : Duration }.
Record StrategyConfig : Set := { Type_ : string; FastTestEnabled : bool }.
Record ManagerConfig : Set := {
  Strategy : StrategyConfig;
  Failover : FailoverConfig
}.

(** Errors returned by the manager.  The source builds them with
    [fmt.Errorf]; the constructor keeps the arguments of the format. *)
Inductive MgrError : Set :=
| ErrEndpointExists (name : string)       (* endpoint '%s' already exists *)
| ErrEndpointNotFound (name : string)     (* endpoint '%s' not found *)
| ErrEndpointMissing (name : string)      (* endpoint %s does not exist *)
| ErrNoFailoverEndpoint                   (* no failover endpoint available *)
| ErrActivateFailed (cause : string)      (* activating new endpoint failed: %w *)
| ErrGroup (msg : string).                (* an error of the group manager *)

Definition error : Set := option MgrError.

(** The group manager is another type of this package whose code is a
    collaborator here: the manager only calls the methods below.  Each
    takes the group manager's state and returns the new one; none of them
    writes an endpoint's status. *)
Class GroupManagerOps (GM : Type) := {
  FilterEndpointsByActiveGroups : GM → list Endpoint → list Endpoint;
  UpdateGroups : GM → list Endpoint → GM;
  gmManualActivateGroup : GM → string → GM * option string;
  DeactivateGroup : GM → string → GM * option string
}.

(** The key manager, seen through the calls made on it. *)
Class KeyManagerOps (KM : Type) := {
  InitEndpoint : KM → string → Z → Z → KM;
  kmRemoveEndpoint : KM → string → KM;
  UpdateEndpointKeyCount : KM → string → Z → Z → KM
}.

Record Manager (GM KM : Type) : Type := {
  endpoints : list Endpoint;
  config : ManagerConfig;
  groupManager : GM;
  keyManager : KM
}.
Arguments endpoints {GM KM} _.
Arguments config {GM KM} _.
Arguments groupManager {GM KM} _.
Arguments keyManager {GM KM} _.

(** [maskKey]: [key[:4] + "****" + key[len(key)-4:]]. *)
Definition maskKey (key : string) : string :=
  if (String.length key <=? 8)%nat then "****"
  else substring 0 4 key +:+ "****" +:+
       substring (String.length key - 4) 4 key.

(** The test written out at every cooldown check:
    [!ep.Status.CooldownUntil.IsZero() && now.Before(ep.Status.CooldownUntil)]. *)
Definition inCooldown (now : Time) (ep : Endpoint) : bool :=
  negb (IsZero (CooldownUntil (Status ep))) &&
  Before now (CooldownUntil (Status ep)).

(** [failoverEnabled := true; if p != nil { failoverEnabled = *p }]. *)
Definition failoverEnabled (ep : Endpoint) : bool :=
  match FailoverEnabled (Config ep) with
  | Some b => b
  | None => true
  end.

Definition hasName (name : string) (ep : Endpoint) : Prop :=
  Name (Config ep) = name.

#[global] Instance hasName_dec name ep : Decision (hasName name ep).
Proof. unfold hasName. apply _. Defined.

(** [tokenCount] / [apiKeyCount] as computed before each key-manager call. *)
Definition keyCount (keys : list KeyConfig) (single : string) : Z :=
  if (Z.of_nat (length keys) =? 0) && negb (bool_decide (single = ""))
  then 1 else Z.of_nat (length keys).

(** [&Endpoint{Config: cfg, Status: EndpointStatus{Healthy: false,
    LastCheck: time.Now(), NeverChecked: true}}] *)
Definition newEndpoint (now : Time) (cfg : EndpointConfig) : Endpoint :=
  {| Config := cfg;
     Status := {| Healthy := false; LastCheck := now; NeverChecked := true;
                  ResponseTime := 0; ConsecutiveFails := 0;
                  CooldownUntil := zeroTime; CooldownReason := "" |} |}.

Definition setCooldown (until : Time) (reason : string) (ep : Endpoint)
    : Endpoint :=
  {| Config := Config ep;
     Status := {| Healthy := Healthy (Status ep);
                  LastCheck := LastCheck (Status ep);
                  NeverChecked := NeverChecked (Status ep);
                  ResponseTime := ResponseTime (Status ep);
                  ConsecutiveFails := ConsecutiveFails (Status ep);
                  CooldownUntil := until; CooldownReason := reason |} |}.

Definition setConfig (cfg : EndpointConfig) (ep : Endpoint) : Endpoint :=
  {| Config := cfg; Status := Status ep |}.

(** [cfg.Name = name] *)
Definition withName (name : string) (cfg : EndpointConfig) : EndpointConfig :=
  {| Name := name; URL := URL cfg; Group := Group cfg;
     Priority := Priority cfg; Token := Token cfg; ApiKey := ApiKey cfg;
     Tokens := Tokens cfg; ApiKeys := ApiKeys cfg;
     FailoverEnabled := FailoverEnabled cfg; Cooldown := Cooldown cfg |}.

(** The comparison handed to [sort.Slice] under strategy "priority". *)
Definition priorityLess (a b : Endpoint) : bool :=
  Priority (Config a) <? Priority (Config b).

(** *** Vocabulary of the specification *)

(** The configured cooldown as the specification words it: the endpoint's
    own value when set and positive, else the manager's default when not
    zero, else ten minutes. *)
Definition specCooldown (own : option Duration) (default : Duration)
    : Duration :=
  match own with
  | Some c => if decide (0 < c) then c
              else if decide (default ≠ 0) then default else 600000000000
  | None => if decide (default ≠ 0) then default else 600000000000
  end.

(** An endpoint carries a cooldown reason only together with a deadline. *)
Definition cooldownConsistent (ep : Endpoint) : Prop :=
  CooldownUntil (Status ep) = zeroTime → CooldownReason (Status ep) = "".

Section Manager.

Context {GM KM : Type} `{!GroupManagerOps GM} `{!KeyManagerOps KM}
        `{!SliceSorter}.

#[local] Abbreviation Mgr := (Manager GM KM).

Definition withEndpoints (m : Mgr) (eps : list Endpoint) (gm : GM) (km : KM)
    : Mgr :=
  {| endpoints := eps; config := config m; groupManager := gm;
     keyManager := km |}.

(** *** endpoint_selection.go *)

Definition sortHealthyEndpoints (m : Mgr) (healthy : list Endpoint)
    : list Endpoint :=
  if bool_decide (Type_ (Strategy (config m)) = "priority") then
    sort_Slice (λ a b, Priority (Config a) <? Priority (Config b)) healthy
  else if bool_decide (Type_ (Strategy (config m)) = "fastest") then
    sort_Slice (λ a b, ResponseTime (Status a) <? ResponseTime (Status b))
      healthy
  else healthy.

Definition getFailoverEndpoints (now : Time)
    (activeEndpoints snapshot : list Endpoint) : list Endpoint :=
  let activeNames : gset string :=
    list_to_set (map (λ ep, Name (Config ep)) activeEndpoints) in
  List.filter
    (λ endpoint,
       if bool_decide (Name (Config endpoint) ∈ activeNames) then false
       else if negb (failoverEnabled endpoint) then false
       else if inCooldown now endpoint then false
       else Healthy (Status endpoint))
    snapshot.

(** [now] is the clock reading of the first loop, [now'] the one taken
    inside [getFailoverEndpoints]. *)
Definition GetHealthyEndpoints (m : Mgr) (now now' : Time) : list Endpoint :=
  let snapshot := endpoints m in
  let activeEndpoints :=
    FilterEndpointsByActiveGroups (groupManager m) snapshot in
  let healthy :=
    List.filter (λ endpoint,
                   Healthy (Status endpoint) && negb (inCooldown now endpoint))
      activeEndpoints in
  if (0 <? length healthy)%nat then sortHealthyEndpoints m healthy
  else if negb (Enabled (Failover (config m))) then healthy
  else sortHealthyEndpoints m
         (getFailoverEndpoints now' activeEndpoints snapshot).

Definition GetEndpointByNameAny (m : Mgr) (name : string) : option Endpoint :=
  snd <$> list_find (hasName name) (endpoints m).

(** *** endpoint_crud.go *)

Definition initKeys (km : KM) (cfg : EndpointConfig) : KM :=
  InitEndpoint km (Name cfg) (keyCount (Tokens cfg) (Token cfg))
    (keyCount (ApiKeys cfg) (ApiKey cfg)).

Definition SyncEndpoints (m : Mgr) (now : Time) (configs : list EndpointConfig)
    : Mgr :=
  let endpoints' := map (newEndpoint now) configs in
  let km := fold_left initKeys configs (keyManager m) in
  withEndpoints m endpoints' (UpdateGroups (groupManager m) endpoints') km.

(** [AddEndpoint] does not hold [endpointsMu] from its name check to its
    append: it takes the read lock for the check, releases it, and takes
    the write lock for the append later.  The two parts are modelled
    apart, so that another call can be placed between them.

    First part, under [endpointsMu.RLock]: the loop that looks for an
    endpoint of the same name. *)
Definition addEndpointCheck (m : Mgr) (cfg : EndpointConfig) : error :=
  if existsb (λ ep, bool_decide (Name (Config ep) = Name cfg)) (endpoints m)
  then Some (ErrEndpointExists (Name cfg))
  else None.

(** Second part, run after a check that found no such name: the endpoint
    is created, its keys are initialised, it is appended under
    [endpointsMu.Lock] to the list as it is by then, and the group manager
    is updated from a snapshot of the new list.  No name is compared
    here. *)
Definition addEndpointAppend (m : Mgr) (now : Time) (cfg : EndpointConfig)
    : Mgr :=
  let endpoint := newEndpoint now cfg in
  let km := initKeys (keyManager m) cfg in
  let endpoints' := endpoints m ++ [endpoint] in
  withEndpoints m endpoints' (UpdateGroups (groupManager m) endpoints') km.

(** A call of [AddEndpoint] that no other call interrupts: the check and
    the append see the same manager. *)
Definition AddEndpoint (m : Mgr) (now : Time) (cfg : EndpointConfig)
    : Mgr * error :=
  match addEndpointCheck m cfg with
  | Some err => (m, Some err)
  | None => (addEndpointAppend m now cfg, None)
  end.

(** Two calls of [AddEndpoint] that overlap: each runs its name check on
    [m] before the other has taken the write lock; the appends follow, the
    first call's before the second's.  The result is the manager and the
    two calls' return values. *)
Definition AddEndpointOverlapped (m : Mgr) (now1 : Time)
    (cfg1 : EndpointConfig) (now2 : Time) (cfg2 : EndpointConfig)
    : Mgr * (error * error) :=
  let err1 := addEndpointCheck m cfg1 in
  let err2 := addEndpointCheck m cfg2 in
  let m1 := match err1 with
            | Some _ => m
            | None => addEndpointAppend m now1 cfg1
            end in
  let m2 := match err2 with
            | Some _ => m1
            | None => addEndpointAppend m1 now2 cfg2
            end in
  (m2, (err1, err2)).

Definition RemoveEndpoint (m : Mgr) (name : string) : Mgr * error :=
  match list_find (hasName name) (endpoints m) with
  | None => (m, Some (ErrEndpointNotFound name))
  | Some (index, _) =>
    let endpoints' := take index (endpoints m) ++ drop (S index) (endpoints m) in
    (withEndpoints m endpoints' (UpdateGroups (groupManager m) endpoints')
       (kmRemoveEndpoint (keyManager m) name),
     None)
  end.

Definition UpdateEndpointConfig (m : Mgr) (name : string)
    (cfg : EndpointConfig) : Mgr * error :=
  match list_find (hasName name) (endpoints m) with
  | None => (m, Some (ErrEndpointNotFound name))
  | Some (index, _) =>
    let cfg := withName name cfg in
    let endpoints' := alter (setConfig cfg) index (endpoints m) in
    (withEndpoints m endpoints' (UpdateGroups (groupManager m) endpoints')
       (UpdateEndpointKeyCount (keyManager m) name
          (keyCount (Tokens cfg) (Token cfg))
          (keyCount (ApiKeys cfg) (ApiKey cfg))),
     None)
  end.

(** *** failover.go *)

Definition selectNextFailoverEndpoint_ep (m : Mgr) (now : Time)
    (excludeEndpoint : string) : option Endpoint :=
  let snapshot :=
    sort_Slice (λ a b, Priority (Config a) <? Priority (Config b))
      (endpoints m) in
  List.find
    (λ ep,
       if bool_decide (Name (Config ep) = excludeEndpoint) then false
       else if negb (failoverEnabled ep) then false
       else if inCooldown now ep then false
       else if negb (Healthy (Status ep)) then false
       else true)
    snapshot.

(** The name of the endpoint the loop stops at, [""] when it runs out. *)
Definition selectNextFailoverEndpoint (m : Mgr) (now : Time)
    (excludeEndpoint : string) : string :=
  match selectNextFailoverEndpoint_ep m now excludeEndpoint with
  | Some ep => Name (Config ep)
  | None => ""
  end.

(** The cooldown length chosen by [TriggerRequestFailover]. *)
Definition cooldownDuration (m : Mgr) (failedEndpoint : Endpoint) : Duration :=
  let d := DefaultCooldown (Failover (config m)) in
  let d := if d =? 0 then 10 * Minute else d in
  match Cooldown (Config failedEndpoint) with
  | Some c => if c >? 0 then c else d
  | None => d
  end.

(** [now] is read when the cooldown is set, [now'] inside
    [selectNextFailoverEndpoint]. *)
Definition TriggerRequestFailover (m : Mgr) (now now' : Time)
    (failedEndpointName reason : string) : Mgr * (string * error) :=
  match list_find (hasName failedEndpointName) (endpoints m) with
  | None => (m, ("", Some (ErrEndpointMissing failedEndpointName)))
  | Some (index, failedEndpoint) =>
    let d := cooldownDuration m failedEndpoint in
    let endpoints' :=
      alter (setCooldown (Add now d) reason) index (endpoints m) in
    let (gm1, _) := DeactivateGroup (groupManager m) failedEndpointName in
    let m1 := withEndpoints m endpoints' gm1 (keyManager m) in
    let newEndpointName := selectNextFailoverEndpoint m1 now' failedEndpointName in
    if bool_decide (newEndpointName = "") then
      (m1, ("", Some ErrNoFailoverEndpoint))
    else
      let (gm2, err) := gmManualActivateGroup gm1 newEndpointName in
      let m2 := withEndpoints m endpoints' gm2 (keyManager m) in
      match err with
      | Some cause => (m2, ("", Some (ErrActivateFailed cause)))
      | None => (m2, (newEndpointName, None))
      end
  end.

Definition IsEndpointInCooldown (m : Mgr) (now : Time) (name : string) : bool :=
  match GetEndpointByNameAny m name with
  | None => false
  | Some ep => inCooldown now ep
  end.

Definition ClearEndpointCooldown (m : Mgr) (name : string) : Mgr :=
  match list_find (hasName name) (endpoints m) with
  | None => m
  | Some (index, ep) =>
    if negb (IsZero (CooldownUntil (Status ep))) then
      withEndpoints m (alter (setCooldown zeroTime "") index (endpoints m))
        (groupManager m) (keyManager m)
    else m
  end.

(** *** notification.go *)

Definition ManualActivateGroup (m : Mgr) (groupName : string) : Mgr * error :=
  let (gm, err) := gmManualActivateGroup (groupManager m) groupName in
  let m1 := withEndpoints m (endpoints m) gm (keyManager m) in
  match err with
  | Some msg => (m1, Some (ErrGroup msg))
  | None => (ClearEndpointCooldown m1 groupName, None)
  end.

(** *** Invariants of the endpoint list *)

(** The names in the list, in order. *)
Definition names (m : Mgr) : list string :=
  map (λ ep, Name (Config ep)) (endpoints m).

Definition uniqueNames (m : Mgr) : Prop := NoDup (names m).

(** Every endpoint carries a cooldown reason only together with a deadline. *)
Definition cooldownInv (m : Mgr) : Prop := Forall cooldownConsistent (endpoints m).

(** One call on the manager.  A failover enters a cooldown whose deadline
    is not the zero time. *)
Inductive step : Manager GM KM → Manager GM KM → Prop :=
| step_sync m now configs : step m (SyncEndpoints m now configs)
| step_add m now cfg : step m (AddEndpoint m now cfg).1
| step_remove m name : step m (RemoveEndpoint m name).1
| step_update m name cfg : step m (UpdateEndpointConfig m name cfg).1
| step_failover m now now' n reason :
    (∀ ep, GetEndpointByNameAny m n = Some ep →
           Add now (cooldownDuration m ep) ≠ zeroTime) →
    step m (TriggerRequestFailover m now now' n reason).1
| step_clear m n : step m (ClearEndpointCooldown m n)
| step_activate m n : step m (ManualActivateGroup m n).1.

End Manager.

(** *** Further methods of the manager *)

(** Errors of the methods below, besides those of [MgrError]. *)
Inductive MgrErrorExt : Set :=
| ErrBase (e : MgrError)
| ErrPriorityBelowOne                     (* priority must be at least 1 *)
| ErrNoMultiToken (name : string)         (* endpoint '%s' has no multi token *)
| ErrNoMultiApiKey (name : string)        (* endpoint '%s' has no multi API key *)
| ErrKeyManager (msg : string).           (* an error of the key manager *)

(** The key manager's per-endpoint state, as [GetEndpointKeysInfo] reads
    it. *)
Record EndpointKeyState : Set := {
  ActiveTokenIndex : Z;
  ActiveApiKeyIndex : Z;
  LastSwitchTime : Time
}.

(** Key-manager calls of key_switch.go. *)
Class KeySwitchOps (KM : Type) := {
  SwitchToken : KM → string → Z → KM * option string;
  SwitchApiKey : KM → string → Z → KM * option string;
  GetEndpointKeyState : KM → string → option EndpointKeyState
}.

(** Group-manager calls of notification.go besides plain activation. *)
Class GroupControlOps (GM : Type) := {
  gmManualActivateGroupWithForce : GM → string → bool → GM * option string;
  gmManualPauseGroup : GM → string → Duration → GM * option string;
  gmManualResumeGroup : GM → string → GM * option string
}.

(** One result of the fast tester. *)
Record FastTestResult : Set := {
  ftEndpoint : Endpoint;
  ftResponseTime : Duration;
  ftSuccess : bool;
  ftError : option string
}.

(** The fast tester ([m.fastTester]) and [SortByResponseTime], whose code
    is outside these sources.  [TestEndpointsParallel] returns the results
    and whether they came from its cache. *)
Class FastTesterOps (FT : Type) := {
  TestEndpointsParallel : FT → list Endpoint → FT * (list FastTestResult * bool);
  SortByResponseTime : list FastTestResult → list FastTestResult
}.

(** One entry of the "tokens" / "api_keys" lists of [GetEndpointKeysInfo]. *)
Record KeyEntry : Set := {
  ke_index : Z;
  ke_name : string;
  ke_masked : string;
  ke_is_active : bool
}.

(** The map [GetEndpointKeysInfo] builds; "last_switch_time" is present
    only after a switch. *)
Record KeysInfo : Set := {
  ki_endpoint : string;
  ki_tokens : list KeyEntry;
  ki_api_keys : list KeyEntry;
  ki_supports_switching : bool;
  ki_last_switch_time : option Time
}.

(** [EndpointStatus{}] *)
Definition zeroStatus : EndpointStatus :=
  {| Healthy := false; LastCheck := zeroTime; NeverChecked := false;
     ResponseTime := 0; ConsecutiveFails := 0; CooldownUntil := zeroTime;
     CooldownReason := "" |}.

(** [targetEndpoint.Config.Priority = newPriority] *)
Definition setPriority (newPriority : Z) (ep : Endpoint) : Endpoint :=
  {| Config :=
       {| Name := Name (Config ep); URL := URL (Config ep);
          Group := Group (Config ep); Priority := newPriority;
          Token := Token (Config ep); ApiKey := ApiKey (Config ep);
          Tokens := Tokens (Config ep); ApiKeys := ApiKeys (Config ep);
          FailoverEnabled := FailoverEnabled (Config ep);
          Cooldown := Cooldown (Config ep) |};
     Status := Status ep |}.

(** The loop [for i, t := range keys] of [GetEndpointKeysInfo], from index
    [i] on. *)
Fixpoint keyEntries (active : option Z) (i : Z) (keys : list KeyConfig)
    : list KeyEntry :=
  match keys with
  | [] => []
  | t :: keys' =>
    {| ke_index := i; ke_name := KeyName t; ke_masked := maskKey (Value t);
       ke_is_active := match active with
                       | Some a => a =? i
                       | None => false
                       end |}
    :: keyEntries active (i + 1) keys'
  end.

(** The list with its single-credential fallback. *)
Definition keyList (active : option Z) (keys : list KeyConfig)
    (single : string) : list KeyEntry :=
  let entries := keyEntries active 0 keys in
  if (Z.of_nat (length entries) =? 0) && negb (bool_decide (single = ""))
  then [{| ke_index := 0; ke_name := "default"; ke_masked := maskKey single;
           ke_is_active := true |}]
  else entries.

Section ManagerMore.

Context {GM KM FT : Type} `{!GroupManagerOps GM} `{!KeyManagerOps KM}
        `{!SliceSorter} `{!KeySwitchOps KM} `{!GroupControlOps GM}
        `{!FastTesterOps FT}.

#[local] Abbreviation Mgr := (Manager GM KM).

(** *** endpoint_selection.go *)

(** [GetEndpointByName]: the first endpoint of that name among those of
    the active groups. *)
Definition GetEndpointByName (m : Mgr) (name : string) : option Endpoint :=
  let activeEndpoints :=
    FilterEndpointsByActiveGroups (groupManager m) (endpoints m) in
  List.find (λ endpoint, bool_decide (Name (Config endpoint) = name))
    activeEndpoints.

Definition GetAllEndpoints (m : Mgr) : list Endpoint := endpoints m.

Definition GetEndpoints (m : Mgr) : list Endpoint := endpoints m.

Definition GetEndpointStatus (m : Mgr) (name : string) : EndpointStatus :=
  match List.find (λ ep, bool_decide (Name (Config ep) = name)) (endpoints m) with
  | Some ep => Status ep
  | None => zeroStatus
  end.

Definition GetEndpointCount (m : Mgr) : Z := Z.of_nat (length (endpoints m)).

(** [GetFastestEndpointsWithRealTimeTest]; [ft] is the manager's fast
    tester, [now'] the clock reading inside [getFailoverEndpoints]. *)
Definition GetFastestEndpointsWithRealTimeTest (m : Mgr) (ft : FT)
    (now' : Time) : FT * list Endpoint :=
  let snapshot := endpoints m in
  let activeEndpoints :=
    FilterEndpointsByActiveGroups (groupManager m) snapshot in
  let healthy :=
    List.filter (λ endpoint, Healthy (Status endpoint)) activeEndpoints in
  let healthy :=
    if (length healthy =? 0)%nat && Enabled (Failover (config m))
    then getFailoverEndpoints now' activeEndpoints snapshot
    else healthy in
  if (length healthy =? 0)%nat then (ft, healthy)
  else if negb (bool_decide (Type_ (Strategy (config m)) = "fastest"))
          || negb (FastTestEnabled (Strategy (config m)))
  then (ft, sortHealthyEndpoints m healthy)
  else
    let '(ft', (testResults, usedCache)) := TestEndpointsParallel ft healthy in
    let sortedResults := SortByResponseTime testResults in
    if (length sortedResults =? 0)%nat then (ft', healthy)
    else (ft', map ftEndpoint sortedResults).

(** *** endpoint_crud.go *)

Definition UpdateEndpointPriority (m : Mgr) (name : string) (newPriority : Z)
    : Mgr * option MgrErrorExt :=
  if newPriority <? 1 then (m, Some ErrPriorityBelowOne)
  else
    match list_find (hasName name) (endpoints m) with
    | None => (m, Some (ErrBase (ErrEndpointNotFound name)))
    | Some (index, _) =>
      (withEndpoints m (alter (setPriority newPriority) index (endpoints m))
         (groupManager m) (keyManager m),
       None)
    end.

(** *** failover.go *)

Definition GetEndpointCooldownInfo (m : Mgr) (now : Time) (name : string)
    : bool * Time * string :=
  match GetEndpointByNameAny m name with
  | None => (false, zeroTime, "")
  | Some ep =>
    (inCooldown now ep, CooldownUntil (Status ep), CooldownReason (Status ep))
  end.

(** *** notification.go *)

Definition ManualActivateGroupWithForce (m : Mgr) (groupName : string)
    (force : bool) : Mgr * error :=
  let (gm, err) :=
    gmManualActivateGroupWithForce (groupManager m) groupName force in
  let m1 := withEndpoints m (endpoints m) gm (keyManager m) in
  match err with
  | Some msg => (m1, Some (ErrGroup msg))
  | None => (ClearEndpointCooldown m1 groupName, None)
  end.

Definition ManualPauseGroup (m : Mgr) (groupName : string)
    (duration : Duration) : Mgr * error :=
  let (gm, err) := gmManualPauseGroup (groupManager m) groupName duration in
  (withEndpoints m (endpoints m) gm (keyManager m), ErrGroup <$> err).

Definition ManualResumeGroup (m : Mgr) (groupName : string) : Mgr * error :=
  let (gm, err) := gmManualResumeGroup (groupManager m) groupName in
  (withEndpoints m (endpoints m) gm (keyManager m), ErrGroup <$> err).

(** *** key_switch.go *)

Definition SwitchEndpointToken (m : Mgr) (endpointName : string) (index : Z)
    : Mgr * option MgrErrorExt :=
  match GetEndpointByNameAny m endpointName with
  | None => (m, Some (ErrBase (ErrEndpointNotFound endpointName)))
  | Some ep =>
    if (length (Tokens (Config ep)) =? 0)%nat
    then (m, Some (ErrNoMultiToken endpointName))
    else
      let (km, err) := SwitchToken (keyManager m) endpointName index in
      (withEndpoints m (endpoints m) (groupManager m) km, ErrKeyManager <$> err)
  end.

Definition SwitchEndpointApiKey (m : Mgr) (endpointName : string) (index : Z)
    : Mgr * option MgrErrorExt :=
  match GetEndpointByNameAny m endpointName with
  | None => (m, Some (ErrBase (ErrEndpointNotFound endpointName)))
  | Some ep =>
    if (length (ApiKeys (Config ep)) =? 0)%nat
    then (m, Some (ErrNoMultiApiKey endpointName))
    else
      let (km, err) := SwitchApiKey (keyManager m) endpointName index in
      (withEndpoints m (endpoints m) (groupManager m) km, ErrKeyManager <$> err)
  end.

Definition GetEndpointKeysInfo (m : Mgr) (endpointName : string)
    : option KeysInfo :=
  match GetEndpointByNameAny m endpointName with
  | None => None
  | Some ep =>
    let state := GetEndpointKeyState (keyManager m) endpointName in
    Some
      {| ki_endpoint := endpointName;
         ki_tokens := keyList (ActiveTokenIndex <$> state)
                        (Tokens (Config ep)) (Token (Config ep));
         ki_api_keys := keyList (ActiveApiKeyIndex <$> state)
                          (ApiKeys (Config ep)) (ApiKey (Config ep));
         ki_supports_switching :=
           (1 <? length (Tokens (Config ep)))%nat ||
           (1 <? length (ApiKeys (Config ep)))%nat;
         ki_last_switch_time :=
           match state with
           | Some st => if negb (IsZero (LastSwitchTime st))
                        then Some (LastSwitchTime st) else None
           | None => None
           end |}
  end.

End ManagerMore.

(** *** Stand-ins for the collaborators, to run the manager on concrete
    inputs.  The group manager keeps the list of active group names (in
    this edition every endpoint is a group of its own, named after it) and
    refuses to activate the empty name; the key manager keeps nothing. *)

#[export] Instance listGroupManager : GroupManagerOps (list string) := {|
  FilterEndpointsByActiveGroups gm eps :=
    List.filter (λ ep, bool_decide (Name (Config ep) ∈ gm)) eps;
  UpdateGroups gm _ := gm;
  gmManualActivateGroup gm name :=
    if bool_decide (name = "") then (gm, Some "group not found")
    else ([name], None);
  DeactivateGroup gm name :=
    (List.filter (λ g, negb (bool_decide (g = name))) gm, None)
|}.

#[export] Instance unitKeyManager : KeyManagerOps unit := {|
  InitEndpoint km _ _ _ := km;
  kmRemoveEndpoint km _ := km;
  UpdateEndpointKeyCount km _ _ _ := km
|}.

(** Stand-ins for the other collaborators: a key manager that keeps the
    active token and API-key index of each endpoint and refuses a negative
    index; group controls that always succeed; a fast tester that reports
    every endpoint as a success with its recorded response time. *)

#[export] Instance mapKeySwitch : KeySwitchOps (gmap string EndpointKeyState) := {|
  SwitchToken km name index :=
    if index <? 0 then (km, Some "index out of range")
    else
      (<[name := {| ActiveTokenIndex := index;
                    ActiveApiKeyIndex :=
                      default 0 (ActiveApiKeyIndex <$> km !! name);
                    LastSwitchTime := 1 |}]> km, None);
  SwitchApiKey km name index :=
    if index <? 0 then (km, Some "index out of range")
    else
      (<[name := {| ActiveTokenIndex :=
                      default 0 (ActiveTokenIndex <$> km !! name);
                    ActiveApiKeyIndex := index;
                    LastSwitchTime := 1 |}]> km, None);
  GetEndpointKeyState km name := km !! name
|}.

#[export] Instance mapKeyManager : KeyManagerOps (gmap string EndpointKeyState) := {|
  InitEndpoint km name _ _ :=
    <[name := {| ActiveTokenIndex := 0; ActiveApiKeyIndex := 0;
                 LastSwitchTime := zeroTime |}]> km;
  kmRemoveEndpoint km name := delete name km;
  UpdateEndpointKeyCount km _ _ _ := km
|}.

#[export] Instance listGroupControl : GroupControlOps (list string) := {|
  gmManualActivateGroupWithForce gm name force :=
    if bool_decide (name = "") then (gm, Some "group not found")
    else if force then (name :: gm, None) else ([name], None);
  gmManualPauseGroup gm name _ :=
    (List.filter (λ g, negb (bool_decide (g = name))) gm, None);
  gmManualResumeGroup gm name := (name :: gm, None)
|}.

#[export] Instance unitFastTester : FastTesterOps unit := {|
  TestEndpointsParallel ft eps :=
    (ft, (map (λ ep, {| ftEndpoint := ep;
                        ftResponseTime := ResponseTime (Status ep);
                        ftSuccess := true; ftError := None |}) eps, false));
  SortByResponseTime results := results
|}.

(** *** Sample endpoints *)

Definition sampleConfig (name : string) (priority : Z)
    (failover : option bool) (cooldown : option Duration) : EndpointConfig :=
  {| Name := name; URL := "https://" +:+ name; Group := name;
     Priority := priority; Token := "tok"; ApiKey := ""; Tokens := [];
     ApiKeys := []; FailoverEnabled := failover; Cooldown := cooldown |}.

Definition sampleEndpoint (cfg : EndpointConfig) (healthy : bool)
    (until : Time) (reason : string) : Endpoint :=
  {| Config := cfg;
     Status := {| Healthy := healthy; LastCheck := 1000; NeverChecked := false;
                  ResponseTime := 250; ConsecutiveFails := 0;
                  CooldownUntil := until; CooldownReason := reason |} |}.

Definition sampleManager (strategy : string) (default : Duration)
    (eps : list Endpoint) (active : list string) : Manager (list string) unit :=
  {| endpoints := eps;
     config := {| Strategy := {| Type_ := strategy; FastTestEnabled := false |};
                  Failover := {| Enabled := true; DefaultCooldown := default |} |};
     groupManager := active;
     keyManager := () |}.

Definition epA := sampleEndpoint (sampleConfig "a" 1 None None) true 0 "".
Definition epB := sampleEndpoint (sampleConfig "b" 1 None None) true 0 "".
Definition epC := sampleEndpoint (sampleConfig "c" 3 None None) true 0 "".
Definition epD :=
  sampleEndpoint (sampleConfig "d" 2 (Some false) (Some 5000)) true 0 "".
Definition epE :=
  sampleEndpoint (sampleConfig "e" 4 None None) true 9000 "connection refused".

Definition epK : Endpoint :=
  {| Config :=
       {| Name := "k"; URL := "https://k"; Group := "k"; Priority := 5;
          Token := ""; ApiKey := "sk-fallback-key";
          Tokens := [ {| KeyName := "main"; Value := "tok-1234567890" |};
                      {| KeyName := "spare"; Value := "tok-abc" |} ];
          ApiKeys := []; FailoverEnabled := None; Cooldown := None |};
     Status := {| Healthy := true; LastCheck := 1000; NeverChecked := false;
                  ResponseTime := 120; ConsecutiveFails := 0;
                  CooldownUntil := 0; CooldownReason := "" |} |}.

Definition sampleKeyedManager (eps : list Endpoint)
    (keys : gmap string EndpointKeyState)
    : Manager (list string) (gmap string EndpointKeyState) :=
  {| endpoints := eps;
     config := {| Strategy := {| Type_ := "priority"; FastTestEnabled := false |};
                  Failover := {| Enabled := true; DefaultCooldown := 0 |} |};
     groupManager := ["k"];
     keyManager := keys |}.

End EndpointMgr.

(** * Properties of the error classifier and the retry policy *)

Module ProxyProps.

Import Proxy.

Ltac case_if :=
  match goal with
  | |- context [if ?b then _ else _] => destruct b eqn:?
  end.

(** The kind does not depend on the manager, the ids or the attempt. *)
Lemma ClassifyError_kind_indep erm erm' err rid rid' ep ep' g g' a a' :
  ErrorType_ (ClassifyError erm err rid ep g a) =
  ErrorType_ (ClassifyError erm' err rid' ep' g' a').
Proof.
  unfold ClassifyError. destruct err as [e|]; [|reflexivity].
  repeat case_if; reflexivity.
Qed.

Lemma ClassifyError_MaxRetries erm err rid ep g a :
  MaxRetries (ClassifyError erm err rid ep g a) = maxRetries erm.
Proof.
  unfold ClassifyError. destruct err as [e|]; [|reflexivity].
  repeat case_if; reflexivity.
Qed.

Lemma ClassifyError_AttemptCount erm err rid ep g a :
  AttemptCount (ClassifyError erm err rid ep g a) = a.
Proof.
  unfold ClassifyError. destruct err as [e|]; [|reflexivity].
  repeat case_if; reflexivity.
Qed.

Lemma ShouldRetry_HTTP c : ErrorType_ c = ErrorTypeHTTP → ShouldRetry c = false.
Proof. unfold ShouldRetry. intros ->. by case_if. Qed.

Lemma ShouldRetry_Auth c : ErrorType_ c = ErrorTypeAuth → ShouldRetry c = false.
Proof. unfold ShouldRetry. intros ->. by case_if. Qed.

Lemma ShouldRetry_over_cap c :
  MaxRetries c ≤ AttemptCount c → ShouldRetry c = false.
Proof.
  unfold ShouldRetry. intros Hcap.
  destruct (AttemptCount c >=? MaxRetries c) eqn:E; [done|]. lia.
Qed.

(** Every status line from 400 to 499 is classified, by evaluation. *)
Lemma status_4xx_table :
  forallb
    (λ k, let code := 400 + Z.of_nat k in
          bool_decide (kindOf (statusError code) =
                       if bool_decide (code = 400) then ErrorTypeRateLimit
                       else if bool_decide (code = 401) then ErrorTypeAuth
                       else if bool_decide (code = 429) then ErrorTypeRateLimit
                       else ErrorTypeHTTP))
    (seq 0 100) = true.
Proof. vm_compute. reflexivity. Qed.

Lemma status_4xx_kind code :
  400 ≤ code ≤ 499 →
  kindOf (statusError code) =
    if bool_decide (code = 400) then ErrorTypeRateLimit
    else if bool_decide (code = 401) then ErrorTypeAuth
    else if bool_decide (code = 429) then ErrorTypeRateLimit
    else ErrorTypeHTTP.
Proof.
  intros Hc.
  pose proof status_4xx_table as Ht.
  rewrite forallb_forall in Ht.
  specialize (Ht (Z.to_nat (code - 400))).
  cbv zeta in Ht. rewrite Z2Nat.id in Ht by lia.
  replace (400 + (code - 400)) with code in Ht by lia.
  eapply bool_decide_eq_true_1. apply Ht, in_seq. lia.
Qed.

(** C1, as the code has it.  A status-line error for a 4xx code other than
    400, 401 and 429 is of kind HTTP and is not retried; 401 is of kind
    Auth and is not retried; and an error whose lowered text contains "400",
    once past the cancel, EOF, timeout and network checks, is of kind
    RateLimit with a one-minute delay, with or without rate language, and is
    retried while attempts remain. *)
Theorem C1_4xx_classification erm rid ep g attempt :
  (∀ code, 400 ≤ code ≤ 499 → code ≠ 400 → code ≠ 401 → code ≠ 429 →
     let c := ClassifyError erm (Some (statusError code)) rid ep g attempt in
     ErrorType_ c = ErrorTypeHTTP ∧ ShouldRetry c = false) ∧
  (let c := ClassifyError erm (Some (statusError 401)) rid ep g attempt in
   ErrorType_ c = ErrorTypeAuth ∧ ShouldRetry c = false) ∧
  (∀ e, reachesTextRules e → Contains (ToLower (Error e)) "400" = true →
     let c := ClassifyError erm (Some e) rid ep g attempt in
     ErrorType_ c = ErrorTypeRateLimit ∧ RetryableAfter c = Minute ∧
     (attempt < maxRetries erm → ShouldRetry c = true)).
Proof.
  split; [|split].
  - intros code Hc H0 H1 H9 c.
    assert (Hk : ErrorType_ c = ErrorTypeHTTP).
    { unfold c.
      rewrite (ClassifyError_kind_indep _ (NewErrorRecoveryManager None)
                 _ _ "" _ "" _ "" _ 0).
      fold (kindOf (statusError code)). rewrite status_4xx_kind by done.
      repeat case_bool_decide; done. }
    split; [done|]. by apply ShouldRetry_HTTP.
  - intros c.
    assert (Hk : ErrorType_ c = ErrorTypeAuth).
    { unfold c.
      by rewrite (ClassifyError_kind_indep _ (NewErrorRecoveryManager None)
                    _ _ "" _ "" _ "" _ 0). }
    split; [done|]. by apply ShouldRetry_Auth.
  - intros e (Hcc & Heof & Hct & Hto & Hnet) H400 c.
    assert (Hc : c = classified
                   {| RequestID := rid; EndpointName := ep; GroupName := g;
                      AttemptCount := attempt; ErrorType_ := ErrorTypeUnknown;
                      OriginalError := Some e; RetryableAfter := 0;
                      MaxRetries := maxRetries erm |}
                   ErrorTypeRateLimit Minute).
    { unfold c, ClassifyError. rewrite Hcc, Heof, Hct, Hto, Hnet.
      unfold rateLimitText. rewrite H400.
      by rewrite !orb_true_r. }
    rewrite Hc. split; [done|]. split; [done|].
    intros Hlt. unfold ShouldRetry. simpl.
    destruct (attempt >=? maxRetries erm) eqn:E; [lia|done].
Qed.

Lemma C1_4xx_classification_witness :
  let erm := NewErrorRecoveryManager None in
  (let c := ClassifyError erm (Some (statusError 404)) "req-1" "A" "A" 0 in
   ErrorType_ c = ErrorTypeHTTP ∧ ShouldRetry c = false) ∧
  (let c := ClassifyError erm (Some (errors_New "Bad Request 400")) "req-1" "A" "A" 0 in
   ErrorType_ c = ErrorTypeRateLimit ∧ RetryableAfter c = Minute ∧
   ShouldRetry c = true).
Proof.
  pose proof (C1_4xx_classification (NewErrorRecoveryManager None)
                "req-1" "A" "A" 0) as (H4 & _ & H400).
  split.
  - apply (H4 404); lia.
  - destruct (H400 (errors_New "Bad Request 400")) as (Hk & Hd & Hr).
    + repeat split; vm_compute; reflexivity.
    + vm_compute; reflexivity.
    + split; [exact Hk | split; [exact Hd | apply Hr; vm_compute; reflexivity]].
Defined.

(** C1 as stated fails at status 400: the status line carries no rate,
    quota or throttle wording, yet it is classified RateLimit, not HTTP, and
    is retried.  It also fails at status 401, which is classified Auth. *)
Lemma C1_counterexample :
  let erm := NewErrorRecoveryManager None in
  let c := ClassifyError erm (Some (statusError 400)) "req-1" "A" "A" 0 in
  let c' := ClassifyError erm (Some (statusError 401)) "req-1" "A" "A" 0 in
  rateLanguage (ToLower (Error (statusError 400))) = false ∧
  ErrorType_ c = ErrorTypeRateLimit ∧ ErrorType_ c ≠ ErrorTypeHTTP ∧
  ShouldRetry c = true ∧
  ErrorType_ c' = ErrorTypeAuth ∧ ErrorType_ c' ≠ ErrorTypeHTTP.
Proof. vm_compute. repeat split; congruence. Qed.

(** The code's status switch agrees with the specification's table. *)
Lemma finalStatus_specStatus ty : finalStatus ty = specStatus ty.
Proof. by destruct ty. Qed.

(** C2.  A context of kind EOF, ResponseTimeout, Stream, HTTP, Auth, Unknown
    or ClientCancel is never retried, whatever the attempt count and the
    cap; and when a tracker is attached and the request has an id,
    [HandleFinalFailure] issues exactly one update of that request's
    record, whose status is the terminal status the table gives for the
    kind ("error" for the kinds it does not list). *)
Theorem C2_final_kinds_and_terminal_status erm c tracker :
  (ErrorType_ c ∈ finalKinds → ShouldRetry c = false) ∧
  (usageTracker erm = Some tracker → RequestID c ≠ "" →
   ∃ opts,
     usageTracker (HandleFinalFailure erm c) =
       Some (tracker ++ [(RequestID c, opts)]) ∧
     uoStatus opts = Some (specStatus (ErrorType_ c)) ∧
     uoRetryCount opts = Some (AttemptCount c)).
Proof.
  split.
  - unfold finalKinds, ShouldRetry. intros Hin.
    destruct (AttemptCount c >=? MaxRetries c); [done|].
    repeat (apply elem_of_cons in Hin as [-> | Hin]; [done|]).
    by apply elem_of_nil in Hin.
  - intros Ht Hid. unfold HandleFinalFailure. rewrite Ht.
    rewrite bool_decide_eq_false_2 by done. simpl.
    eexists. split; [reflexivity|]. simpl.
    by rewrite finalStatus_specStatus.
Qed.

Lemma C2_final_kinds_and_terminal_status_witness :
  let erm := NewErrorRecoveryManager (Some []) in
  let c := ClassifyError erm (Some (errors_New "unexpected EOF"))
             "req-7" "A" "A" 0 in
  ErrorType_ c = ErrorTypeEOF ∧ ShouldRetry c = false ∧
  ∃ opts,
    usageTracker (HandleFinalFailure erm c) = Some [("req-7", opts)] ∧
    uoStatus opts = Some "eof_interrupted" ∧ uoRetryCount opts = Some 0.
Proof.
  intros erm c.
  destruct (C2_final_kinds_and_terminal_status erm c []) as [Hr Hs].
  split; [vm_compute; reflexivity|].
  split.
  - apply Hr. vm_compute. apply list_elem_of_here.
  - apply Hs; [vm_compute; reflexivity | vm_compute; discriminate].
Defined.

(** Every kind is either in the final list or retried below the cap. *)
Lemma ShouldRetry_below_cap c :
  AttemptCount c < MaxRetries c →
  ShouldRetry c = negb (bool_decide (ErrorType_ c ∈ finalKinds ∨
                                     ErrorType_ c = ErrorTypeTimeout ∨
                                     ErrorType_ c = ErrorTypeNoHealthyEndpoints)).
Proof.
  intros Hlt. unfold ShouldRetry.
  destruct (AttemptCount c >=? MaxRetries c) eqn:E; [lia|].
  destruct (ErrorType_ c); vm_compute; reflexivity.
Qed.

(** C8.  Once the attempt count has reached the cap, [ShouldRetry] is
    false for every kind; a new manager has cap 3 and hands it to every
    context it builds; and with cap 0 no classified error is retried, at
    any attempt count from 0 on. *)
Theorem C8_attempt_cap :
  (∀ c, AttemptCount c >= MaxRetries c → ShouldRetry c = false) ∧
  (∀ tracker err rid ep g attempt,
     maxRetries (NewErrorRecoveryManager tracker) = 3 ∧
     MaxRetries (ClassifyError (NewErrorRecoveryManager tracker)
                   err rid ep g attempt) = 3) ∧
  (∀ erm err rid ep g attempt,
     maxRetries erm = 0 → 0 ≤ attempt →
     ShouldRetry (ClassifyError erm err rid ep g attempt) = false).
Proof.
  split; [|split].
  - intros c Hc. apply ShouldRetry_over_cap. lia.
  - intros. split; [reflexivity|]. by rewrite ClassifyError_MaxRetries.
  - intros erm err rid ep g attempt Hcap Ha.
    apply ShouldRetry_over_cap.
    rewrite ClassifyError_MaxRetries, ClassifyError_AttemptCount. lia.
Qed.

Lemma C8_attempt_cap_witness :
  let erm := NewErrorRecoveryManager None in
  let busy := Some (errors_New "connection refused") in
  ShouldRetry (ClassifyError erm busy "req-2" "A" "A" 2) = true ∧
  ShouldRetry (ClassifyError erm busy "req-2" "A" "A" 3) = false ∧
  ShouldRetry (ClassifyError (SetRetryPolicy erm 0 Second (30 * Second) 2)
                 busy "req-2" "A" "A" 0) = false.
Proof.
  destruct C8_attempt_cap as (Hcap & _ & Hzero).
  split; [vm_compute; reflexivity|]. split.
  - apply Hcap. vm_compute. discriminate.
  - apply Hzero; [reflexivity | lia].
Defined.

End ProxyProps.

(** * Go's insertion sort meets the contract of [sort.Slice] *)

Module GoSortProps.

Import GoSort.

Section insertion.

Context {A : Type} (less : A → A → bool).

(** The sorted prefix is kept back to front: an element is never [less]
    than one that follows it in [rp]. *)
#[local] Abbreviation backSorted := (StronglySorted (λ x y : A, less x y = false)).

Lemma sink_perm x rp : sink less x rp ≡ₚ x :: rp.
Proof.
  induction rp as [|y rp IH]; simpl; [done|].
  destruct (less x y); [|done].
  rewrite IH. apply Permutation_swap.
Qed.

Lemma sink_sorted x rp :
  StrictWeak less → backSorted rp → backSorted (sink less x rp).
Proof.
  intros [Hirr Htr Hinc]. induction rp as [|y rp IH]; simpl; intros Hs.
  - repeat constructor.
  - apply StronglySorted_cons in Hs as [Hy Hs].
    destruct (less x y) eqn:Hxy.
    + apply StronglySorted_cons. split; [|by apply IH].
      rewrite sink_perm. constructor; [|done].
      destruct (less y x) eqn:Hyx; [|done].
      pose proof (Htr x y x Hxy Hyx) as Hxx. by rewrite Hirr in Hxx.
    + apply StronglySorted_cons. split; [|by apply StronglySorted_cons].
      constructor; [done|].
      eapply Forall_impl; [exact Hy|]. intros z Hyz. by eapply Hinc.
Qed.

Lemma fold_sink_perm l acc :
  fold_left (λ rp x, sink less x rp) l acc ≡ₚ l ++ acc.
Proof.
  revert acc. induction l as [|x l IH]; intros acc; simpl; [done|].
  rewrite IH, sink_perm. by rewrite Permutation_middle.
Qed.

Lemma fold_sink_sorted l acc :
  StrictWeak less → backSorted acc →
  backSorted (fold_left (λ rp x, sink less x rp) l acc).
Proof.
  intros Hsw. revert acc. induction l as [|x l IH]; intros acc Hs; simpl.
  - done.
  - by apply IH, sink_sorted.
Qed.

Lemma backSorted_reverse rp :
  backSorted rp → StronglySorted (λ x y, less y x = false) (reverse rp).
Proof.
  induction rp as [|x rp IH]; intros Hs; [constructor|].
  apply StronglySorted_cons in Hs as [Hx Hs]. rewrite reverse_cons.
  apply StronglySorted_app_2; [|by apply IH|repeat constructor].
  intros a b Ha Hb. apply list_elem_of_singleton in Hb as ->.
  rewrite Forall_forall in Hx. apply Hx.
  by apply elem_of_reverse.
Qed.

Lemma insertionSort_perm l : insertionSortLessFunc less l ≡ₚ l.
Proof.
  unfold insertionSortLessFunc.
  by rewrite reverse_Permutation, fold_sink_perm, app_nil_r.
Qed.

Lemma insertionSort_sorted l :
  StrictWeak less →
  StronglySorted (λ x y, less y x = false) (insertionSortLessFunc less l).
Proof.
  intros Hsw. apply backSorted_reverse, fold_sink_sorted; [done|constructor].
Qed.

(** On input that is already in order the loop never swaps. *)
Lemma insertionSort_in_order l :
  StronglySorted (λ x y, less y x = false) l →
  insertionSortLessFunc less l = l.
Proof.
  unfold insertionSortLessFunc. intros Hs.
  assert (H : ∀ acc,
    StronglySorted (λ x y, less y x = false) (reverse acc ++ l) →
    fold_left (λ rp x, sink less x rp) l acc = reverse l ++ acc).
  { clear Hs. induction l as [|x l IH]; intros acc Hs; simpl; [done|].
    assert (Hx : sink less x acc = x :: acc).
    { destruct acc as [|y acc]; simpl; [done|].
      rewrite reverse_cons in Hs. assert (less x y = false) as ->; [|done].
      eapply (StronglySorted_app_1_elem_of (λ a b, less b a = false) _ _ y x);
        [exact Hs| |by left].
      apply elem_of_app. right. by left. }
    rewrite Hx, IH, reverse_cons; [by rewrite <- app_assoc|].
    rewrite reverse_cons. by rewrite <- app_assoc. }
  rewrite H by done. by rewrite app_nil_r, reverse_involutive.
Qed.

End insertion.

#[export] Instance goSliceSorterLaws : SliceSorterLaws (H := goSliceSorter).
Proof.
  split; intros A less l.
  - apply insertionSort_perm.
  - apply insertionSort_sorted.
Qed.

End GoSortProps.

(** * Properties of the endpoint manager *)

Module EndpointProps.

Import EndpointMgr.

(** ** Byte strings *)

Lemma string_app_cons c (a b : string) : String c a +:+ b = String c (a +:+ b).
Proof. reflexivity. Qed.

Lemma string_app_empty (b : string) : "" +:+ b = b.
Proof. reflexivity. Qed.

Lemma string_length_app (a b : string) :
  String.length (a +:+ b) = (String.length a + String.length b)%nat.
Proof.
  induction a as [|c a IH]; [done|].
  rewrite string_app_cons. simpl. by rewrite IH.
Qed.

Lemma string_app_assoc (a b c : string) : (a +:+ b) +:+ c = a +:+ (b +:+ c).
Proof.
  induction a as [|x a IH]; [done|].
  rewrite !string_app_cons. by rewrite IH.
Qed.

Lemma substring_prefix (a b : string) :
  substring 0 (String.length a) (a +:+ b) = a.
Proof.
  induction a as [|c a IH]; [by destruct b|].
  rewrite string_app_cons. simpl. by rewrite IH.
Qed.

Lemma substring_skip (a b : string) n m :
  substring (String.length a + n) m (a +:+ b) = substring n m b.
Proof.
  induction a as [|c a IH]; [done|]. rewrite string_app_cons. by simpl.
Qed.

Lemma substring_all (a : string) : substring 0 (String.length a) a = a.
Proof. induction a as [|c a IH]; simpl; [done|]. by rewrite IH. Qed.

(** A string can be cut at any offset within its length. *)
Lemma string_cut (s : string) n :
  (n ≤ String.length s)%nat →
  ∃ a b, s = a +:+ b ∧ String.length a = n.
Proof.
  revert s. induction n as [|n IH]; intros s Hn.
  - by exists "", s.
  - destruct s as [|c s]; simpl in Hn; [lia|].
    destruct (IH s) as (a & b & -> & Ha); [lia|].
    exists (String c a), b. simpl. by rewrite Ha.
Qed.

Lemma maskKey_parts (h mid t : string) :
  String.length h = 4%nat → String.length t = 4%nat →
  (1 ≤ String.length mid)%nat →
  maskKey (h +:+ mid +:+ t) = h +:+ "****" +:+ t.
Proof.
  intros Hh Ht Hm. unfold maskKey.
  rewrite !string_length_app, Hh, Ht.
  destruct (4 + (String.length mid + 4) <=? 8)%nat eqn:E;
    [apply Nat.leb_le in E; lia|].
  f_equal.
  - rewrite <- Hh. apply substring_prefix.
  - f_equal.
    replace (4 + (String.length mid + 4) - 4)%nat
      with (String.length (h +:+ mid) + 0)%nat
      by (rewrite string_length_app; lia).
    rewrite <- string_app_assoc, substring_skip, <- Ht.
    apply substring_all.
Qed.

(** C9.  A key of at most 8 bytes is masked to "****".  A longer key is
    its first 4 bytes [h], a middle of at least one byte, and its last 4
    bytes [t]; it is masked to [h], "****", [t].  A key of 9 bytes has a
    one-byte middle, and its mask is 12 bytes long. *)
Theorem C9_maskKey (key : string) :
  ((String.length key ≤ 8)%nat → maskKey key = "****") ∧
  ((8 < String.length key)%nat →
   ∃ h mid t,
     key = h +:+ mid +:+ t ∧ String.length h = 4%nat ∧
     String.length t = 4%nat ∧
     String.length mid = (String.length key - 8)%nat ∧
     maskKey key = h +:+ "****" +:+ t ∧
     String.length (maskKey key) = 12%nat).
Proof.
  split.
  - intros Hle. unfold maskKey.
    by apply Nat.leb_le in Hle as ->.
  - intros Hlt.
    destruct (string_cut key 4) as (h & r & -> & Hh); [lia|].
    rewrite string_length_app in Hlt.
    destruct (string_cut r (String.length r - 4)) as (mid & t & -> & Hm); [lia|].
    rewrite string_length_app in Hlt, Hm.
    assert (Ht : String.length t = 4%nat) by lia.
    exists h, mid, t. split; [done|]. split; [done|]. split; [done|].
    split; [rewrite !string_length_app; lia|].
    rewrite maskKey_parts by (done || lia).
    split; [done|]. rewrite !string_length_app, Hh, Ht. done.
Qed.

Lemma C9_maskKey_witness :
  maskKey "sk-12345" = "****" ∧
  maskKey "sk-123456" = "sk-1****3456" ∧
  String.length (maskKey "sk-123456") = 12%nat.
Proof.
  split; [|split].
  - apply (C9_maskKey "sk-12345"). vm_compute. lia.
  - vm_compute. reflexivity.
  - destruct (C9_maskKey "sk-123456") as [_ H].
    destruct H as (h & mid & t & _ & _ & _ & _ & _ & Hlen);
      [vm_compute; lia | exact Hlen].
Defined.

(** ** Selection *)

Lemma priorityLess_StrictWeak : StrictWeak priorityLess.
Proof.
  unfold priorityLess. split.
  - intros x. apply Z.ltb_irrefl.
  - intros x y z H1%Z.ltb_lt H2%Z.ltb_lt. apply Z.ltb_lt. lia.
  - intros x y z H1%Z.ltb_ge H2%Z.ltb_ge. apply Z.ltb_ge. lia.
Qed.

Lemma StronglySorted_lookup {A} (R : relation A) l i j a b :
  StronglySorted R l → (i < j)%nat →
  l !! i = Some a → l !! j = Some b → R a b.
Proof.
  intros Hs. revert i j. induction Hs as [|x l Hs IH Hx]; intros i j Hij Hi Hj.
  - by rewrite lookup_nil in Hi.
  - destruct j as [|j]; [lia|]. simpl in Hj.
    destruct i as [|i]; simpl in Hi.
    + injection Hi as <-. rewrite Forall_forall in Hx.
      eapply Hx, list_elem_of_lookup_2, Hj.
    + eapply (IH i j); [lia|done..].
Qed.

(** Names determine endpoints in a list without duplicate names. *)
Lemma NoDup_names_inj (l : list Endpoint) x y :
  NoDup (map (λ ep, Name (Config ep)) l) → x ∈ l → y ∈ l →
  Name (Config x) = Name (Config y) → x = y.
Proof.
  induction l as [|z l IH]; simpl; intros Hnd Hx Hy Hn.
  - by apply elem_of_nil in Hx.
  - apply NoDup_cons in Hnd as [Hz Hnd].
    apply elem_of_cons in Hx as [->|Hx]; apply elem_of_cons in Hy as [->|Hy].
    + done.
    + exfalso. apply Hz. rewrite Hn.
      by apply (list_elem_of_fmap_2 (λ ep, Name (Config ep))).
    + exfalso. apply Hz. rewrite <- Hn.
      by apply (list_elem_of_fmap_2 (λ ep, Name (Config ep))).
    + by apply IH.
Qed.

Section selection.

Context {GM KM : Type} `{!GroupManagerOps GM} `{!KeyManagerOps KM}
        `{!SliceSorter} `{!SliceSorterLaws}.

Implicit Types m : Manager GM KM.

Lemma sortHealthyEndpoints_perm m healthy :
  sortHealthyEndpoints m healthy ≡ₚ healthy.
Proof.
  unfold sortHealthyEndpoints.
  repeat case_bool_decide; try done; apply sort_Slice_perm.
Qed.

(** C3, as the code has it.  Under strategy "priority" the selector's
    result is a rearrangement of the healthy endpoints in which priorities
    never decrease from left to right.  Nothing orders endpoints of equal
    priority by name. *)
Theorem C3_priority_ascending m healthy :
  Type_ (Strategy (config m)) = "priority" →
  let S := sortHealthyEndpoints m healthy in
  S ≡ₚ healthy ∧
  ∀ i j a b, (i < j)%nat → S !! i = Some a → S !! j = Some b →
    Priority (Config a) ≤ Priority (Config b).
Proof.
  intros Hst S. split; [apply sortHealthyEndpoints_perm|].
  intros i j a b Hij Hi Hj.
  assert (Hs : StronglySorted (λ x y, priorityLess y x = false) S).
  { unfold S, sortHealthyEndpoints.
    rewrite bool_decide_eq_true_2 by done.
    apply (sort_Slice_sorted _ priorityLess), priorityLess_StrictWeak. }
  pose proof (StronglySorted_lookup _ _ _ _ _ _ Hs Hij Hi Hj) as Hab.
  unfold priorityLess in Hab. by apply Z.ltb_ge in Hab.
Qed.

(** The filter of [getFailoverEndpoints], read off one endpoint. *)
Lemma elem_of_getFailoverEndpoints now active snapshot e :
  e ∈ getFailoverEndpoints now active snapshot ↔
  (e ∈ snapshot ∧
   (Name (Config e) ∉ map (λ ep, Name (Config ep)) active) ∧
   failoverEnabled e = true ∧ inCooldown now e = false ∧
   Healthy (Status e) = true).
Proof.
  unfold getFailoverEndpoints.
  rewrite list_elem_of_In, filter_In, <- list_elem_of_In.
  case_bool_decide as Hact; rewrite elem_of_list_to_set in Hact.
  - split; [intros [_ ?]; done | intros (_ & Hn & _); done].
  - destruct (failoverEnabled e), (inCooldown now e); simpl;
      (split; [intros [? ?]; done | intros (? & _ & ? & ? & ?); done]).
Qed.

Lemma selectNextFailoverEndpoint_ep_Some m now exclude ep :
  selectNextFailoverEndpoint_ep m now exclude = Some ep →
  ep ∈ endpoints m ∧ Name (Config ep) ≠ exclude ∧
  failoverEnabled ep = true ∧ inCooldown now ep = false ∧
  Healthy (Status ep) = true.
Proof.
  unfold selectNextFailoverEndpoint_ep. intros [Hin Hf]%find_some.
  apply list_elem_of_In in Hin. rewrite sort_Slice_perm in Hin.
  split; [done|].
  case_bool_decide; [done|].
  destruct (failoverEnabled ep), (inCooldown now ep), (Healthy (Status ep));
    done.
Qed.

(** C4.  An endpoint whose [FailoverEnabled] is set to false is not in the
    list [getFailoverEndpoints] returns and is not the endpoint
    [selectNextFailoverEndpoint] stops at; where names are unique, its name
    is not the name returned. *)
Theorem C4_failover_disabled_excluded m now active snapshot exclude e :
  FailoverEnabled (Config e) = Some false →
  (e ∉ getFailoverEndpoints now active snapshot) ∧
  selectNextFailoverEndpoint_ep m now exclude ≠ Some e ∧
  (NoDup (map (λ ep, Name (Config ep)) (endpoints m)) →
   e ∈ endpoints m → Name (Config e) ≠ "" →
   selectNextFailoverEndpoint m now exclude ≠ Name (Config e)).
Proof.
  intros Hoff.
  assert (Hfe : failoverEnabled e = false) by (unfold failoverEnabled; by rewrite Hoff).
  split; [|split].
  - rewrite elem_of_getFailoverEndpoints. intros (_ & _ & Hen & _). congruence.
  - intros (_ & _ & Hen & _)%selectNextFailoverEndpoint_ep_Some. congruence.
  - intros Hnd Hin Hne. unfold selectNextFailoverEndpoint.
    destruct (selectNextFailoverEndpoint_ep m now exclude) as [ep|] eqn:Hsel;
      [|congruence].
    intros Hname.
    apply selectNextFailoverEndpoint_ep_Some in Hsel as (Hep & _ & Hen & _).
    assert (ep = e) as -> by eauto using NoDup_names_inj.
    congruence.
Qed.

(** The cooldown test in arithmetic. *)
Lemma inCooldown_spec now ep :
  inCooldown now ep = true ↔
  CooldownUntil (Status ep) ≠ zeroTime ∧ now < CooldownUntil (Status ep).
Proof.
  unfold inCooldown, IsZero, Before, zeroTime.
  rewrite andb_true_iff, negb_true_iff, Z.eqb_neq, Z.ltb_lt. done.
Qed.

Lemma GetEndpointByNameAny_Some m name ep :
  GetEndpointByNameAny m name = Some ep →
  ep ∈ endpoints m ∧ Name (Config ep) = name.
Proof.
  unfold GetEndpointByNameAny. intros Hf.
  apply fmap_Some in Hf as ([i ep'] & Hf & ->).
  apply list_find_Some in Hf as (Hi & Hn & _).
  split; [by eapply list_elem_of_lookup_2|done].
Qed.

(** C5.  The cooldown test answers true exactly when [cooldownUntil] is
    not the zero time and lies after the query time; for a query time that
    is not before the zero time this is [cooldownUntil > t] alone.
    [IsEndpointInCooldown] reports this test for the endpoint found under
    the name.  In [GetHealthyEndpoints] an endpoint of the active groups
    that is cooling at the time of the call is never returned, and a
    healthy endpoint of the active groups is returned exactly when the
    test is false. *)
Theorem C5_cooldown_predicate m now now' :
  (∀ ep, inCooldown now ep = true ↔
         CooldownUntil (Status ep) ≠ zeroTime ∧
         CooldownUntil (Status ep) > now) ∧
  (∀ ep, zeroTime ≤ now →
         (inCooldown now ep = true ↔ CooldownUntil (Status ep) > now)) ∧
  (∀ name, IsEndpointInCooldown m now name = true ↔
           ∃ ep, GetEndpointByNameAny m name = Some ep ∧
                 CooldownUntil (Status ep) ≠ zeroTime ∧
                 CooldownUntil (Status ep) > now) ∧
  (∀ ep, ep ∈ FilterEndpointsByActiveGroups (groupManager m) (endpoints m) →
         (inCooldown now ep = true → ep ∉ GetHealthyEndpoints m now now') ∧
         (Healthy (Status ep) = true →
          (ep ∈ GetHealthyEndpoints m now now' ↔ inCooldown now ep = false))).
Proof.
  split; [|split; [|split]].
  - intros ep. rewrite inCooldown_spec. lia.
  - intros ep Hnow. rewrite inCooldown_spec. unfold zeroTime in *. lia.
  - intros name. unfold IsEndpointInCooldown.
    destruct (GetEndpointByNameAny m name) as [ep|]; split.
    + intros Hc%inCooldown_spec. exists ep. split; [done|]. lia.
    + intros (ep' & [= <-] & Hz & Hlt). apply inCooldown_spec. lia.
    + done.
    + by intros (ep' & [=] & _).
  - intros ep Hact.
    assert (Hcool : inCooldown now ep = true → ep ∉ GetHealthyEndpoints m now now').
    { intros Hc. unfold GetHealthyEndpoints.
      destruct (0 <? length _)%nat.
      - rewrite sortHealthyEndpoints_perm, list_elem_of_In, filter_In.
        intros [_ Hf]. by rewrite Hc, andb_false_r in Hf.
      - destruct (negb (Enabled (Failover (config m)))).
        + rewrite list_elem_of_In, filter_In.
          intros [_ Hf]. by rewrite Hc, andb_false_r in Hf.
        + rewrite sortHealthyEndpoints_perm, elem_of_getFailoverEndpoints.
          intros (_ & Hn & _). apply Hn.
          by apply (list_elem_of_fmap_2 (λ ep, Name (Config ep))). }
    split; [done|]. intros Hh. split.
    + intros Hin. destruct (inCooldown now ep); [|done].
      by destruct Hcool.
    + intros Hc. unfold GetHealthyEndpoints.
      assert (Hin : ep ∈ List.filter
                (λ endpoint, Healthy (Status endpoint) &&
                             negb (inCooldown now endpoint))
                (FilterEndpointsByActiveGroups (groupManager m) (endpoints m))).
      { rewrite list_elem_of_In, filter_In, <- list_elem_of_In.
        by rewrite Hh, Hc. }
      destruct (List.filter _ _) as [|x l] eqn:E.
      * by apply elem_of_nil in Hin.
      * simpl. by rewrite sortHealthyEndpoints_perm.
Qed.

End selection.

(** ** The endpoint list and cooldown state *)

Lemma list_find_alter_hit {A} (P : A → Prop) `{∀ x, Decision (P x)}
    (f : A → A) (l : list A) i x :
  list_find P l = Some (i, x) → P (f x) →
  list_find P (alter f i l) = Some (i, f x).
Proof.
  intros (Hi & HP & Hlt)%list_find_Some HPf. apply list_find_Some.
  split; [by rewrite list_lookup_alter_eq, Hi|]. split; [done|].
  intros j y Hj Hji. rewrite list_lookup_alter_ne in Hj by lia. eauto.
Qed.

Section registry.

Context {GM KM : Type} `{!GroupManagerOps GM} `{!KeyManagerOps KM}
        `{!SliceSorter}.

Implicit Types m : Manager GM KM.

Lemma name_taken m name :
  existsb (λ ep, bool_decide (Name (Config ep) = name)) (endpoints m) = true ↔
  name ∈ names m.
Proof.
  unfold names. rewrite existsb_exists, (list_elem_of_fmap (λ ep, Name (Config ep))).
  split.
  - intros (ep & Hin & Hn). exists ep.
    apply bool_decide_eq_true_1 in Hn. by rewrite list_elem_of_In.
  - intros (ep & -> & Hin). exists ep.
    rewrite <- list_elem_of_In. split; [done|]. by apply bool_decide_eq_true_2.
Qed.

Lemma AddEndpoint_taken m now cfg :
  Name cfg ∈ names m →
  AddEndpoint m now cfg = (m, Some (ErrEndpointExists (Name cfg))).
Proof.
  intros Hin%name_taken. unfold AddEndpoint, addEndpointCheck. by rewrite Hin.
Qed.

Lemma AddEndpoint_fresh m now cfg :
  Name cfg ∉ names m →
  (AddEndpoint m now cfg).2 = None ∧
  names (AddEndpoint m now cfg).1 = names m ++ [Name cfg].
Proof.
  intros Hout. unfold AddEndpoint, addEndpointCheck, addEndpointAppend.
  destruct (existsb _ _) eqn:E; [by apply name_taken in E|].
  split; [done|]. unfold names. simpl. by rewrite map_app.
Qed.

Lemma RemoveEndpoint_names m name :
  names (RemoveEndpoint m name).1 `sublist_of` names m.
Proof.
  unfold RemoveEndpoint.
  destruct (list_find _ _) as [[i ep]|]; simpl; [|done].
  unfold names. simpl. rewrite <- delete_take_drop.
  change (map ?f ?l) with (f <$> l). rewrite list_fmap_delete.
  apply sublist_delete.
Qed.

Lemma UpdateEndpointConfig_names m name cfg :
  names (UpdateEndpointConfig m name cfg).1 = names m.
Proof.
  unfold UpdateEndpointConfig.
  destruct (list_find _ _) as [[i ep]|] eqn:Hf; simpl; [|done].
  apply list_find_Some in Hf as (Hi & Hn & _).
  unfold names. simpl. apply list_eq. intros j.
  change (map ?f ?l) with (f <$> l). rewrite !list_lookup_fmap.
  destruct (decide (i = j)) as [<-|Hne].
  - rewrite list_lookup_alter_eq, Hi. simpl. by rewrite Hn.
  - by rewrite list_lookup_alter_ne.
Qed.

Lemma SyncEndpoints_names m now configs :
  names (SyncEndpoints m now configs) = map Name configs.
Proof. unfold names, SyncEndpoints. simpl. by rewrite map_map. Qed.

Lemma addEndpointCheck_None m cfg :
  addEndpointCheck m cfg = None ↔ Name cfg ∉ names m.
Proof.
  unfold addEndpointCheck. rewrite <- name_taken.
  destruct (existsb _ _); split; done.
Qed.

Lemma addEndpointAppend_names m now cfg :
  names (addEndpointAppend m now cfg) = names m ++ [Name cfg].
Proof. unfold names, addEndpointAppend. simpl. by rewrite map_app. Qed.

Lemma addEndpointAppend_unique m now cfg :
  uniqueNames m → Name cfg ∉ names m →
  uniqueNames (addEndpointAppend m now cfg).
Proof.
  unfold uniqueNames. intros Hu Hout. rewrite addEndpointAppend_names.
  apply NoDup_app. split; [done|]. split; [|apply NoDup_singleton].
  intros x Hx ->%list_elem_of_singleton. done.
Qed.

(** The append compares no name: two calls of [AddEndpoint] under one new
    name whose checks both run before either append both return [nil], and
    the name is in the list twice. *)
Lemma AddEndpointOverlapped_duplicate m now1 cfg1 now2 cfg2 :
  Name cfg1 ∉ names m → Name cfg2 = Name cfg1 →
  (AddEndpointOverlapped m now1 cfg1 now2 cfg2).2 = (None, None) ∧
  names (AddEndpointOverlapped m now1 cfg1 now2 cfg2).1 =
    names m ++ [Name cfg1; Name cfg1] ∧
  ¬ uniqueNames (AddEndpointOverlapped m now1 cfg1 now2 cfg2).1.
Proof.
  intros Hout Heq. unfold AddEndpointOverlapped, uniqueNames.
  assert (H1 : addEndpointCheck m cfg1 = None) by by apply addEndpointCheck_None.
  assert (H2 : addEndpointCheck m cfg2 = None).
  { apply addEndpointCheck_None. by rewrite Heq. }
  rewrite H1, H2. cbv zeta iota. simpl.
  rewrite !addEndpointAppend_names, Heq, <- app_assoc. simpl.
  split; [done|]. split; [done|].
  intros (_ & _ & Hd)%NoDup_app.
  apply NoDup_cons in Hd as [Hd _]. apply Hd. by left.
Qed.

(** C6, as the code has it, for calls that do not overlap (each call runs
    from its first read of the list to its last write with no other call
    changing the list in between).  [AddEndpoint] with a name already in
    the list returns an error and the manager as it was; with a new name it
    appends the endpoint.  [AddEndpoint], [RemoveEndpoint] and
    [UpdateEndpointConfig] keep names unique; for [AddEndpoint], whose name
    check and append are separate critical sections, this is: when the
    check has passed on a manager [m0] and the list still has the names of
    [m0] at the time of the append, the append keeps names unique.
    [SyncEndpoints] installs the given configurations as they come: the
    names of the new list are the names of the configurations, so the list
    has unique names exactly when the configurations do. *)
Theorem C6_name_uniqueness m now cfg name :
  (Name cfg ∈ names m →
   AddEndpoint m now cfg = (m, Some (ErrEndpointExists (Name cfg)))) ∧
  (Name cfg ∉ names m →
   (AddEndpoint m now cfg).2 = None ∧
   names (AddEndpoint m now cfg).1 = names m ++ [Name cfg]) ∧
  (uniqueNames m →
   uniqueNames (AddEndpoint m now cfg).1 ∧
   uniqueNames (RemoveEndpoint m name).1 ∧
   uniqueNames (UpdateEndpointConfig m name cfg).1) ∧
  (∀ m0, addEndpointCheck m0 cfg = None → names m = names m0 →
     uniqueNames m → uniqueNames (addEndpointAppend m now cfg)) ∧
  (∀ configs,
     names (SyncEndpoints m now configs) = map Name configs ∧
     (uniqueNames (SyncEndpoints m now configs) ↔ NoDup (map Name configs))).
Proof.
  split; [apply AddEndpoint_taken|]. split; [apply AddEndpoint_fresh|].
  split; [|split].
  - intros Hu. split; [|split].
    + destruct (decide (Name cfg ∈ names m)) as [Hin|Hout].
      * by rewrite AddEndpoint_taken.
      * unfold uniqueNames.
        destruct (AddEndpoint_fresh m now cfg Hout) as [_ ->].
        apply NoDup_app. split; [done|]. split; [|apply NoDup_singleton].
        intros x Hx ->%list_elem_of_singleton. done.
    + eapply sublist_NoDup; [exact Hu|apply RemoveEndpoint_names].
    + unfold uniqueNames. by rewrite UpdateEndpointConfig_names.
  - intros m0 Hc Hn Hu. apply addEndpointAppend_unique; [done|].
    rewrite Hn. by apply addEndpointCheck_None.
  - intros configs. unfold uniqueNames.
    by rewrite SyncEndpoints_names.
Qed.

Lemma TriggerRequestFailover_endpoints m now now' n reason i ep :
  list_find (hasName n) (endpoints m) = Some (i, ep) →
  endpoints (TriggerRequestFailover m now now' n reason).1 =
    alter (setCooldown (Add now (cooldownDuration m ep)) reason) i (endpoints m).
Proof.
  intros Hf. unfold TriggerRequestFailover. rewrite Hf.
  destruct (DeactivateGroup _ _) as [gm1 e1].
  case_bool_decide; [done|].
  destruct (gmManualActivateGroup _ _) as [gm2 [cause|]]; done.
Qed.

Lemma cooldownDuration_spec m ep :
  cooldownDuration m ep =
  specCooldown (Cooldown (Config ep)) (DefaultCooldown (Failover (config m))).
Proof.
  unfold cooldownDuration, specCooldown, Minute.
  destruct (Cooldown (Config ep)) as [c|];
    repeat case_decide;
    repeat match goal with
           | |- context [?a =? ?b] => destruct (Z.eqb_spec a b)
           | |- context [?a >? ?b] => destruct (Z.gtb_spec a b)
           end; (done || lia).
Qed.

(** C7.  When an endpoint named [n] exists, [TriggerRequestFailover n
    reason] leaves it, whatever the call returns, with [cooldownUntil]
    equal to the call time plus [d] and [cooldownReason] equal to
    [reason]; [d] is the endpoint's own cooldown when set and positive,
    else the manager's default when not zero, else ten minutes.  Its
    configuration, and every other endpoint, are as before. *)
Theorem C7_failover_cooldown m now now' n reason ep :
  GetEndpointByNameAny m n = Some ep →
  let d := specCooldown (Cooldown (Config ep))
             (DefaultCooldown (Failover (config m))) in
  let m' := (TriggerRequestFailover m now now' n reason).1 in
  (∃ ep',
     GetEndpointByNameAny m' n = Some ep' ∧
     CooldownUntil (Status ep') = now + d ∧
     CooldownReason (Status ep') = reason ∧
     Config ep' = Config ep) ∧
  (∀ j other, endpoints m !! j = Some other → Name (Config other) ≠ n →
              endpoints m' !! j = Some other).
Proof.
  intros Hg d m'. unfold GetEndpointByNameAny in Hg.
  apply fmap_Some in Hg as ([i ep0] & Hf & ->). simpl in *.
  assert (Hm' : endpoints m' = alter (setCooldown (now + d) reason) i (endpoints m)).
  { unfold m', d. rewrite <- cooldownDuration_spec.
    by apply TriggerRequestFailover_endpoints. }
  split.
  - exists (setCooldown (now + d) reason ep0).
    unfold GetEndpointByNameAny. rewrite Hm'.
    erewrite list_find_alter_hit; [done|exact Hf|].
    by apply list_find_Some in Hf as (_ & Hn & _).
  - intros j other Hj Hne. rewrite Hm'.
    apply list_find_Some in Hf as (Hi & Hn & _).
    rewrite list_lookup_alter_ne; [done|].
    intros <-. rewrite Hi in Hj. injection Hj as <-. done.
Qed.

Lemma ClearEndpointCooldown_found m n i ep :
  list_find (hasName n) (endpoints m) = Some (i, ep) →
  cooldownConsistent ep →
  ∃ ep', GetEndpointByNameAny (ClearEndpointCooldown m n) n = Some ep' ∧
         CooldownUntil (Status ep') = zeroTime ∧
         CooldownReason (Status ep') = "" ∧ Config ep' = Config ep.
Proof.
  intros Hf Hc. unfold ClearEndpointCooldown, GetEndpointByNameAny.
  rewrite Hf. destruct (IsZero (CooldownUntil (Status ep))) eqn:Hz; simpl.
  - exists ep. rewrite Hf. split; [done|].
    apply Z.eqb_eq in Hz. split; [done|]. split; [by apply Hc|done].
  - exists (setCooldown zeroTime "" ep).
    erewrite list_find_alter_hit; [done|exact Hf|].
    by apply list_find_Some in Hf as (_ & Hn & _).
Qed.

(** C10.  When [ManualActivateGroup n] succeeds and an endpoint named [n]
    exists, that endpoint ends with the zero [cooldownUntil] and, given
    that it carried a reason only together with a deadline, an empty
    [cooldownReason]; its configuration is untouched.  When the group
    activation returns an error the error is passed on and the endpoint
    list, cooldown state included, is the one before the call. *)
Theorem C10_manual_activate_clears_cooldown m n :
  let r := ManualActivateGroup m n in
  (r.2 = None ↔ (gmManualActivateGroup (groupManager m) n).2 = None) ∧
  (r.2 = None →
   ∀ ep, GetEndpointByNameAny m n = Some ep → cooldownConsistent ep →
     ∃ ep', GetEndpointByNameAny r.1 n = Some ep' ∧
            CooldownUntil (Status ep') = zeroTime ∧
            CooldownReason (Status ep') = "" ∧ Config ep' = Config ep) ∧
  (r.2 ≠ None → endpoints r.1 = endpoints m).
Proof.
  unfold ManualActivateGroup.
  destruct (gmManualActivateGroup (groupManager m) n) as [gm [msg|]]; simpl.
  - split; [done|]. split; done.
  - split; [done|]. split; [|done].
    intros _ ep Hg Hc. unfold GetEndpointByNameAny in Hg.
    apply fmap_Some in Hg as ([i ep0] & Hf & ->). simpl in *.
    by eapply (ClearEndpointCooldown_found
                 (withEndpoints m (endpoints m) gm (keyManager m))).
Qed.

(** *** [cooldownConsistent] is an invariant of the manager

    New endpoints start without reason and deadline, a cooldown is entered
    with a deadline, and clearing resets both. *)

Lemma ClearEndpointCooldown_inv m n :
  cooldownInv m → cooldownInv (ClearEndpointCooldown m n).
Proof.
  unfold cooldownInv, ClearEndpointCooldown. intros Hinv.
  destruct (list_find _ _) as [[i ep]|]; [|done].
  destruct (negb _); [|done]. simpl.
  apply Forall_alter; [done|]. intros x _ _. by unfold cooldownConsistent.
Qed.

Lemma step_cooldownInv m m' : step m m' → cooldownInv m → cooldownInv m'.
Proof.
  unfold cooldownInv. intros Hstep Hinv.
  destruct Hstep as [| | | |m now now' n reason Hdl| |]; simpl.
  - apply Forall_forall. intros ep Hin.
    apply (list_elem_of_fmap_1 (newEndpoint now)) in Hin as (c & -> & _).
    by unfold cooldownConsistent.
  - unfold AddEndpoint, addEndpointCheck, addEndpointAppend.
    destruct (existsb _ _); simpl; [done|].
    apply Forall_app. split; [done|]. by repeat constructor.
  - unfold RemoveEndpoint. destruct (list_find _ _) as [[i ep]|]; simpl; [|done].
    apply Forall_app. split; [by apply Forall_take|by apply Forall_drop].
  - unfold UpdateEndpointConfig.
    destruct (list_find _ _) as [[i ep]|]; simpl; [|done].
    apply Forall_alter; [done|]. by intros x _ Hx.
  - destruct (list_find (hasName n) (endpoints m)) as [[i ep]|] eqn:Hf.
    + rewrite (TriggerRequestFailover_endpoints _ _ _ _ _ _ _ Hf).
      apply Forall_alter; [done|]. intros x _ _ Hz. simpl in Hz.
      destruct (Hdl ep); [|done].
      unfold GetEndpointByNameAny. by rewrite Hf.
    + unfold TriggerRequestFailover. by rewrite Hf.
  - by apply ClearEndpointCooldown_inv.
  - unfold ManualActivateGroup.
    destruct (gmManualActivateGroup _ _) as [gm [msg|]]; simpl; [done|].
    by apply (ClearEndpointCooldown_inv
                (withEndpoints m (endpoints m) gm (keyManager m))).
Qed.

(** Every manager reached from a synchronised endpoint list satisfies the
    invariant. *)
Lemma reachable_cooldownInv m0 now configs m :
  rtc step (SyncEndpoints m0 now configs) m → cooldownInv m.
Proof.
  intros Hr.
  assert (H0 : cooldownInv (SyncEndpoints m0 now configs)).
  { unfold cooldownInv. simpl. apply Forall_forall. intros ep Hin.
    apply (list_elem_of_fmap_1 (newEndpoint now)) in Hin as (c & -> & _).
    by unfold cooldownConsistent. }
  induction Hr as [|x y z Hxy _ IH]; [done|].
  apply IH. by eapply step_cooldownInv.
Qed.

End registry.

(** ** The manager on concrete endpoints *)

Section samples.

Import GoSort GoSortProps.

Lemma C3_priority_ascending_witness :
  let m := sampleManager "priority" 0 [] [] in
  let S := sortHealthyEndpoints m [epC; epD; epA] in
  S = [epA; epD; epC] ∧ S ≡ₚ [epC; epD; epA] ∧
  ∀ i j a b, (i < j)%nat → S !! i = Some a → S !! j = Some b →
    Priority (Config a) ≤ Priority (Config b).
Proof.
  intros m S. split; [vm_compute; reflexivity|].
  apply (C3_priority_ascending m [epC; epD; epA]). reflexivity.
Defined.

(** C3 as stated fails on two healthy endpoints of priority 1 given in the
    order "b", "a": the comparison never asks for a swap, so "b" stays in
    front of "a". *)
Lemma C3_counterexample :
  let m := sampleManager "priority" 0 [] [] in
  let S := sortHealthyEndpoints m [epB; epA] in
  S !! 0%nat = Some epB ∧ S !! 1%nat = Some epA ∧
  Priority (Config epB) = Priority (Config epA) ∧
  String.ltb (Name (Config epA)) (Name (Config epB)) = true.
Proof. vm_compute. repeat split. Qed.

Lemma C4_failover_disabled_excluded_witness :
  let m := sampleManager "priority" 0 [epA; epC; epD] ["a"] in
  (epD ∉ getFailoverEndpoints 5000 [epA] [epA; epC; epD]) ∧
  getFailoverEndpoints 5000 [epA] [epA; epC; epD] = [epC] ∧
  selectNextFailoverEndpoint m 5000 "a" = "c" ∧
  selectNextFailoverEndpoint m 5000 "a" ≠ "d".
Proof.
  intros m.
  destruct (C4_failover_disabled_excluded m 5000 [epA] [epA; epC; epD] "a" epD)
    as (Hlist & _ & Hname); [reflexivity|].
  split; [exact Hlist|]. split; [vm_compute; reflexivity|].
  split; [vm_compute; reflexivity|].
  apply Hname.
  - apply (bool_decide_unpack _). vm_compute. exact I.
  - apply (bool_decide_unpack _). vm_compute. exact I.
  - discriminate.
Defined.

Lemma C5_cooldown_predicate_witness :
  let m := sampleManager "priority" 0 [epA; epE] ["a"; "e"] in
  inCooldown 5000 epE = true ∧ inCooldown 9000 epE = false ∧
  inCooldown 5000 epA = false ∧
  IsEndpointInCooldown m 5000 "e" = true ∧
  (epE ∉ GetHealthyEndpoints m 5000 5001) ∧
  GetHealthyEndpoints m 5000 5001 = [epA] ∧
  GetHealthyEndpoints m 9000 9001 = [epA; epE].
Proof.
  intros m.
  destruct (C5_cooldown_predicate m 5000 5001) as (_ & Hpos & Hname & Hsel).
  split; [apply Hpos; [unfold zeroTime; lia | vm_compute; reflexivity]|].
  split; [vm_compute; reflexivity|]. split; [vm_compute; reflexivity|].
  split.
  { apply Hname. exists epE.
    split; [vm_compute; reflexivity|]. split; [discriminate|].
    vm_compute. reflexivity. }
  split.
  { apply (Hsel epE); [|vm_compute; reflexivity].
    apply (bool_decide_unpack _). vm_compute. exact I. }
  split; vm_compute; reflexivity.
Defined.

Lemma C6_name_uniqueness_witness :
  let m := sampleManager "priority" 0 [epA; epC] ["a"] in
  let cfgA := sampleConfig "a" 7 None None in
  let cfgB := sampleConfig "b" 2 None None in
  AddEndpoint m 100 cfgA = (m, Some (ErrEndpointExists "a")) ∧
  names (AddEndpoint m 100 cfgB).1 = ["a"; "c"; "b"] ∧
  uniqueNames (AddEndpoint m 100 cfgB).1 ∧
  uniqueNames (RemoveEndpoint m "a").1 ∧
  uniqueNames (UpdateEndpointConfig m "a" cfgB).1 ∧
  uniqueNames (addEndpointAppend m 100 cfgB) ∧
  uniqueNames (SyncEndpoints m 100 [cfgA; cfgB]).
Proof.
  intros m cfgA cfgB.
  assert (Hu : uniqueNames m).
  { apply (bool_decide_unpack _). vm_compute. exact I. }
  destruct (C6_name_uniqueness m 100 cfgA "a") as (Htaken & _ & _ & _).
  destruct (C6_name_uniqueness m 100 cfgB "a")
    as (_ & Hfresh & Hkeep & Hlate & Hsync).
  split.
  { apply Htaken. apply (bool_decide_unpack _). vm_compute. exact I. }
  split.
  { apply Hfresh. apply (bool_decide_unpack _). vm_compute. exact I. }
  destruct (Hkeep Hu) as (Hadd & Hrem & Hupd).
  split; [exact Hadd|]. split; [exact Hrem|]. split; [exact Hupd|].
  split.
  { apply (Hlate (sampleManager "priority" 0 [epA; epC] ["c"]));
      [vm_compute; reflexivity|vm_compute; reflexivity|exact Hu]. }
  apply (Hsync [cfgA; cfgB]).
  apply (bool_decide_unpack _). vm_compute. exact I.
Defined.

(** Two overlapping calls of [AddEndpoint] under the new name "b": both
    return [nil] and "b" is in the list twice. *)
Lemma AddEndpointOverlapped_sample :
  let m := sampleManager "priority" 0 [epA; epC] ["a"] in
  let cfgB := sampleConfig "b" 2 None None in
  (AddEndpointOverlapped m 100 cfgB 101 cfgB).2 = (None, None) ∧
  names (AddEndpointOverlapped m 100 cfgB 101 cfgB).1 = ["a"; "c"; "b"; "b"].
Proof. split; vm_compute; reflexivity. Qed.

(** C6 as stated fails for [SyncEndpoints]: handed two configurations
    named "a", it installs two endpoints named "a". *)
Lemma C6_counterexample :
  let m := sampleManager "priority" 0 [] [] in
  let cfgA := sampleConfig "a" 1 None None in
  uniqueNames m ∧
  names (SyncEndpoints m 100 [cfgA; cfgA]) = ["a"; "a"] ∧
  ¬ uniqueNames (SyncEndpoints m 100 [cfgA; cfgA]).
Proof.
  split; [apply NoDup_nil_2|]. split; [reflexivity|].
  unfold uniqueNames. change (¬ NoDup ["a"; "a"]).
  intros [Hin _]%NoDup_cons. apply Hin. by left.
Qed.

Lemma C7_failover_cooldown_witness :
  let m := sampleManager "priority" 0 [epA; epC; epD] ["d"] in
  let m' := (TriggerRequestFailover m 1000 1001 "d" "connection refused").1 in
  let m'' := (TriggerRequestFailover m 1000 1001 "c" "http 503").1 in
  (∃ ep', GetEndpointByNameAny m' "d" = Some ep' ∧
          CooldownUntil (Status ep') = 6000 ∧
          CooldownReason (Status ep') = "connection refused" ∧
          Config ep' = Config epD) ∧
  (CooldownUntil ∘ Status) <$> GetEndpointByNameAny m'' "c" =
    Some (1000 + 600000000000) ∧
  (TriggerRequestFailover m 1000 1001 "d" "connection refused").2 = ("a", None).
Proof.
  intros m m' m''. split; [|split; vm_compute; reflexivity].
  destruct (C7_failover_cooldown m 1000 1001 "d" "connection refused" epD)
    as [Hset _]; [vm_compute; reflexivity|].
  exact Hset.
Defined.

Lemma C10_manual_activate_clears_cooldown_witness :
  let m := sampleManager "priority" 0 [epA; epE] ["a"] in
  (ManualActivateGroup m "e").2 = None ∧
  (∃ ep', GetEndpointByNameAny (ManualActivateGroup m "e").1 "e" = Some ep' ∧
          CooldownUntil (Status ep') = zeroTime ∧
          CooldownReason (Status ep') = "" ∧ Config ep' = Config epE) ∧
  (ManualActivateGroup m "").2 ≠ None ∧
  endpoints (ManualActivateGroup m "").1 = [epA; epE].
Proof.
  intros m.
  destruct (C10_manual_activate_clears_cooldown m "e") as (Hiff & Hok & _).
  destruct (C10_manual_activate_clears_cooldown m "") as (Hiff' & _ & Herr).
  assert (Hs : (ManualActivateGroup m "e").2 = None).
  { apply Hiff. vm_compute. reflexivity. }
  assert (He : (ManualActivateGroup m "").2 ≠ None).
  { intros Hn. apply Hiff' in Hn. vm_compute in Hn. discriminate. }
  split; [exact Hs|]. split.
  { apply (Hok Hs epE); [vm_compute; reflexivity|].
    unfold cooldownConsistent. vm_compute. discriminate. }
  split; [exact He|]. exact (Herr He).
Defined.

End samples.

End EndpointProps.

(** * Further properties of the error classifier *)

Module ProxyExtra.

Import Proxy ProxyProps.
Import EndpointProps.

(** ** Substring search *)

Lemma ToLower_app (a b : string) :
  ToLower (a +:+ b) = ToLower a +:+ ToLower b.
Proof.
  induction a as [|c a IH]; [done|].
  rewrite string_app_cons. simpl. by rewrite IH.
Qed.

(** Lowering is bytewise: a cut of the lowered text is a cut of the text. *)
Lemma ToLower_split (t a b : string) :
  ToLower t = a +:+ b →
  ∃ t1 t2, t = t1 +:+ t2 ∧ ToLower t1 = a ∧ ToLower t2 = b.
Proof.
  revert t. induction a as [|c a IH]; intros t Ht.
  - by exists "", t.
  - destruct t as [|x t]; [done|].
    rewrite string_app_cons in Ht. simpl in Ht. injection Ht as Hc Ht.
    destruct (IH t Ht) as (t1 & t2 & -> & H1 & H2).
    exists (String x t1), t2. simpl. by rewrite Hc, H1.
Qed.

Lemma HasPrefix_spec (s p : string) :
  HasPrefix s p = true ↔ ∃ b, s = p +:+ b.
Proof.
  unfold HasPrefix. revert s. induction p as [|c p IH]; intros s.
  - split; [by exists s|by destruct s].
  - destruct s as [|x s]; simpl.
    + split; [done|by intros [b Hb]].
    + destruct (ascii_dec c x) as [->|Hne].
      * rewrite IH. split; intros [b Hb]; exists b.
        -- by rewrite string_app_cons, <- Hb.
        -- rewrite string_app_cons in Hb. by injection Hb.
      * split; [done|]. intros [b Hb].
        rewrite string_app_cons in Hb. by injection Hb as ->.
Qed.

Lemma Contains_unfold (s p : string) :
  Contains s p =
  if HasPrefix s p then true
  else match s with
       | EmptyString => false
       | String _ s' => Contains s' p
       end.
Proof. by destruct s. Qed.

(** [Contains s p] holds exactly when [p] occurs in [s]. *)
Lemma Contains_spec (s p : string) :
  Contains s p = true ↔ ∃ a b, s = a +:+ p +:+ b.
Proof.
  split.
  - induction s as [|c s IH]; rewrite Contains_unfold;
      destruct (HasPrefix _ p) eqn:Hp.
    + apply HasPrefix_spec in Hp as [b Hb]. by exists "", b.
    + done.
    + apply HasPrefix_spec in Hp as [b Hb]. by exists "", b.
    + intros (a & b & ->)%IH. by exists (String c a), b.
  - intros (a & b & ->). induction a as [|c a IH].
    + rewrite Contains_unfold.
      assert (HasPrefix ("" +:+ p +:+ b) p = true) as ->; [|done].
      apply HasPrefix_spec. by exists b.
    + rewrite Contains_unfold, string_app_cons.
      by destruct (HasPrefix _ p).
Qed.

Lemma Contains_ToLower (text pat : string) :
  Contains (ToLower text) pat = true ↔ mentions text pat.
Proof.
  unfold mentions. rewrite Contains_spec. split.
  - intros (a & b & Ht).
    apply ToLower_split in Ht as (pre & r & -> & <- & Hr).
    apply ToLower_split in Hr as (w & post & -> & <- & <-).
    by exists pre, w, post.
  - intros (pre & w & post & -> & <-).
    exists (ToLower pre), (ToLower post). by rewrite !ToLower_app.
Qed.

Lemma ContainsAny_ToLower (text : string) (pats : list string) :
  ContainsAny (ToLower text) pats = true ↔ mentionsAny text pats.
Proof.
  unfold ContainsAny, mentionsAny. rewrite existsb_exists.
  split; intros (pat & H1 & H2); exists pat.
  - by rewrite list_elem_of_In, <- Contains_ToLower.
  - by rewrite <- list_elem_of_In, Contains_ToLower.
Qed.

(** A text that mentions a word mentions every part of the word. *)
Lemma mentions_part (text pre pat post : string) :
  mentions text (pre +:+ pat +:+ post) → mentions text pat.
Proof.
  intros (a & w & b & -> & Hw).
  apply ToLower_split in Hw as (w1 & r & -> & H1 & Hr).
  apply ToLower_split in Hr as (w2 & w3 & -> & H2 & H3).
  exists (a +:+ w1), w2, (w3 +:+ b). split; [|done].
  by rewrite !string_app_assoc.
Qed.

(** ** The classification chain *)

(** The kind is decided by the first test that accepts the error. *)
Lemma ClassifyError_kind erm e rid ep g a :
  ErrorType_ (ClassifyError erm (Some e) rid ep g a) =
  let errStr := ToLower (Error e) in
  if isClientCancelError (Some e) then ErrorTypeClientCancel
  else if isEOFError (Some e) then ErrorTypeEOF
  else if isConnectionTimeoutError (Some e) then ErrorTypeConnectionTimeout
  else if isTimeoutError (Some e) then ErrorTypeResponseTimeout
  else if isNetworkError (Some e) then ErrorTypeNetwork
  else if rateLimitText errStr then ErrorTypeRateLimit
  else if serverErrorText errStr then ErrorTypeServerError
  else if authText errStr then ErrorTypeAuth
  else if streamText errStr then
    if Contains errStr "streaming not supported" then ErrorTypeUnknown
    else ErrorTypeStream
  else if httpText errStr then ErrorTypeHTTP
  else if Contains errStr "no healthy endpoints available"
  then ErrorTypeNoHealthyEndpoints
  else ErrorTypeUnknown.
Proof. unfold ClassifyError. cbv zeta. repeat case_if; reflexivity. Qed.

Lemma ClassifyError_delay erm err rid ep g a :
  let c := ClassifyError erm err rid ep g a in
  RetryableAfter c =
  match ErrorType_ c with
  | ErrorTypeConnectionTimeout | ErrorTypeNetwork | ErrorTypeServerError
  | ErrorTypeStream => calculateBackoffDelay erm a
  | ErrorTypeRateLimit => Minute
  | ErrorTypeUnknown => RetryableAfter c
  | _ => 0
  end.
Proof.
  unfold ClassifyError. destruct err as [e|]; [|reflexivity].
  cbv zeta. repeat case_if; reflexivity.
Qed.

(** The words of [isClientCancelError], without "context canceled", which
    "canceled" covers. *)
Definition cancelWords : list string :=
  ["canceled"; "client disconnected"; "connection closed by client";
   "client gone away"].

Lemma isClientCancelError_spec e :
  isClientCancelError (Some e) = true ↔
  isContextCanceled e = true ∨ mentionsAny (Error e) cancelWords.
Proof.
  unfold isClientCancelError.
  destruct (isContextCanceled e); [by split; [left|]|]. cbv iota.
  rewrite ContainsAny_ToLower. split.
  - intros (pat & Hin & Hm). right.
    apply elem_of_cons in Hin as [->|Hin].
    + exists "canceled". split; [by left|].
      by apply (mentions_part _ "context " "canceled" "").
    + by exists pat.
  - intros [?|(pat & Hin & Hm)]; [done|].
    exists pat. split; [by right|done].
Qed.

Lemma ClassifyError_cancel_iff erm e rid ep g attempt :
  ErrorType_ (ClassifyError erm (Some e) rid ep g attempt) =
    ErrorTypeClientCancel ↔
  isClientCancelError (Some e) = true.
Proof.
  rewrite ClassifyError_kind. cbv zeta.
  destruct (isClientCancelError (Some e)); [done|].
  repeat case_if; done.
Qed.

(** X1.  An error that wraps [context.Canceled] is classified ClientCancel
    whatever its text.  An error whose text is ASCII (every byte below
    0x80, where [strings.ToLower] lowers the letters A-Z and nothing else)
    is classified ClientCancel exactly when it wraps [context.Canceled] or
    its text mentions, in any mix of upper-case and lower-case letters, one
    of "canceled", "client disconnected", "connection closed by client",
    "client gone away"; no other content of the error matters.  An error
    classified ClientCancel gets no retry delay and is never retried. *)
Theorem X1_client_cancel_first erm e rid ep g attempt :
  let c := ClassifyError erm (Some e) rid ep g attempt in
  (isContextCanceled e = true → ErrorType_ c = ErrorTypeClientCancel) ∧
  (isASCII (Error e) = true →
   (ErrorType_ c = ErrorTypeClientCancel ↔
    isContextCanceled e = true ∨ mentionsAny (Error e) cancelWords)) ∧
  (ErrorType_ c = ErrorTypeClientCancel →
   RetryableAfter c = 0 ∧ ShouldRetry c = false).
Proof.
  intros c. split; [|split].
  - intros Hw. unfold c. apply ClassifyError_cancel_iff.
    unfold isClientCancelError. by rewrite Hw.
  - intros _. rewrite <- isClientCancelError_spec. unfold c.
    apply ClassifyError_cancel_iff.
  - intros Hk. split.
    + pose proof (ClassifyError_delay erm (Some e) rid ep g attempt) as Hd.
      cbv zeta in Hd. fold c in Hd. by rewrite Hk in Hd.
    + unfold ShouldRetry. rewrite Hk. by case_if.
Qed.

Lemma X1_client_cancel_first_witness :
  let erm := NewErrorRecoveryManager None in
  let e := errors_New "read tcp 10.0.0.1: use of closed connection: Context Canceled (502 timeout)" in
  let c := ClassifyError erm (Some e) "req-3" "A" "A" 0 in
  isASCII (Error e) = true ∧
  ErrorType_ c = ErrorTypeClientCancel ∧ RetryableAfter c = 0 ∧
  ShouldRetry c = false.
Proof.
  intros erm e c.
  destruct (X1_client_cancel_first erm e "req-3" "A" "A" 0)
    as (_ & Hiff & Hfin).
  assert (Ha : isASCII (Error e) = true) by (vm_compute; reflexivity).
  split; [exact Ha|].
  assert (Hk : ErrorType_ c = ErrorTypeClientCancel).
  { apply (Hiff Ha). right. exists "canceled". split; [by left|].
    exists "read tcp 10.0.0.1: use of closed connection: Context ",
           "Canceled", " (502 timeout)".
    split; reflexivity. }
  split; [exact Hk|]. exact (Hfin Hk).
Defined.

Lemma isEOFError_spec e :
  isEOFError (Some e) = true ↔
  isIoEOF e = true ∨ isIoUnexpectedEOF e = true ∨ mentions (Error e) "eof".
Proof.
  unfold isEOFError.
  destruct (isIoEOF e); [by split; [left|]|].
  destruct (isIoUnexpectedEOF e); [by split; [right; left|]|].
  cbv beta iota delta [orb]. rewrite ContainsAny_ToLower. split.
  - intros (pat & Hin & Hm). right. right.
    apply elem_of_cons in Hin as [->|Hin]; [done|].
    apply list_elem_of_singleton in Hin as ->.
    by apply (mentions_part _ "unexpected " "eof" "").
  - intros [?|[?|Hm]]; [done..|].
    exists "eof". split; [by left|done].
Qed.

(** X2.  An error that is not a client cancel is classified EOF exactly
    when it wraps [io.EOF] or [io.ErrUnexpectedEOF] or its text mentions
    "eof" in any letter case, also when it is a network or timeout error as
    well.  An EOF error gets no retry delay and is never retried. *)
Theorem X2_eof_before_network erm e rid ep g attempt :
  let c := ClassifyError erm (Some e) rid ep g attempt in
  (ErrorType_ c = ErrorTypeEOF ↔
   isClientCancelError (Some e) = false ∧
   (isIoEOF e = true ∨ isIoUnexpectedEOF e = true ∨
    mentions (Error e) "eof")) ∧
  (ErrorType_ c = ErrorTypeEOF →
   RetryableAfter c = 0 ∧ ShouldRetry c = false).
Proof.
  intros c. split.
  - rewrite <- isEOFError_spec. unfold c.
    rewrite ClassifyError_kind. cbv zeta.
    destruct (isClientCancelError (Some e)); [by split; [|intros [? _]]|].
    destruct (isEOFError (Some e)); [done|].
    split; [|by intros [_ ?]]. repeat case_if; done.
  - intros Hk. split.
    + pose proof (ClassifyError_delay erm (Some e) rid ep g attempt) as Hd.
      cbv zeta in Hd. fold c in Hd. by rewrite Hk in Hd.
    + unfold ShouldRetry. rewrite Hk. by case_if.
Qed.

Lemma X2_eof_before_network_witness :
  let erm := NewErrorRecoveryManager None in
  let e := {| Error := "read tcp 10.0.0.1:443: connection reset by peer: unexpected EOF";
              isContextCanceled := false; isIoEOF := false;
              isIoUnexpectedEOF := true; isDeadlineExceeded := false;
              isHandlerTimeout := false;
              asNetOpError := Some ("read", false); asDNSError := false;
              asErrnoPtr := Some ECONNRESET |} in
  let c := ClassifyError erm (Some e) "req-4" "A" "A" 0 in
  isNetworkError (Some e) = true ∧
  ErrorType_ c = ErrorTypeEOF ∧ RetryableAfter c = 0 ∧ ShouldRetry c = false.
Proof.
  intros erm e c.
  destruct (X2_eof_before_network erm e "req-4" "A" "A" 0) as [Hiff Hfin].
  assert (Hk : ErrorType_ c = ErrorTypeEOF).
  { apply Hiff. split; [vm_compute; reflexivity|]. right. left. reflexivity. }
  split; [vm_compute; reflexivity|]. split; [exact Hk|]. exact (Hfin Hk).
Defined.

(** X3.  For an error that unwraps to a [net.OpError]: if the operation
    timed out the error is never classified Network; if it did not, the
    classification stops at the network test at the latest, so the kind is
    one of ClientCancel, EOF, ConnectionTimeout, ResponseTimeout, Network
    and the status-code and keyword rules are never consulted. *)
Theorem X3_net_op_error erm e rid ep g attempt op timeout :
  asNetOpError e = Some (op, timeout) →
  let c := ClassifyError erm (Some e) rid ep g attempt in
  (timeout = true → ErrorType_ c ≠ ErrorTypeNetwork) ∧
  (timeout = false →
   ErrorType_ c ∈ [ErrorTypeClientCancel; ErrorTypeEOF;
                   ErrorTypeConnectionTimeout; ErrorTypeResponseTimeout;
                   ErrorTypeNetwork]).
Proof.
  intros Hop c. unfold c. rewrite ClassifyError_kind. cbv zeta.
  assert (Hnet : isNetworkError (Some e) = negb timeout).
  { unfold isNetworkError. rewrite Hop. by destruct timeout. }
  rewrite Hnet. split; intros ->; simpl.
  - repeat case_if; done.
  - repeat case_if;
      repeat first [apply list_elem_of_here | apply list_elem_of_further].
Qed.

Lemma X3_net_op_error_witness :
  let erm := NewErrorRecoveryManager None in
  let e := {| Error := "write tcp 10.0.0.1:443: upstream said 503 / rate limit";
              isContextCanceled := false; isIoEOF := false;
              isIoUnexpectedEOF := false; isDeadlineExceeded := false;
              isHandlerTimeout := false;
              asNetOpError := Some ("write", false); asDNSError := false;
              asErrnoPtr := None |} in
  let c := ClassifyError erm (Some e) "req-5" "A" "A" 1 in
  ErrorType_ c = ErrorTypeNetwork ∧
  ErrorType_ c ∈ [ErrorTypeClientCancel; ErrorTypeEOF;
                  ErrorTypeConnectionTimeout; ErrorTypeResponseTimeout;
                  ErrorTypeNetwork].
Proof.
  intros erm e c. split; [vm_compute; reflexivity|].
  apply (X3_net_op_error erm e "req-5" "A" "A" 1 "write" false);
    reflexivity.
Defined.

(** ** Retry verdict, delays, names *)

(** X4.  The classifier never produces the kinds Timeout and Parsing.  A
    classified error is retried exactly when the attempt is below the
    manager's cap and the kind is ConnectionTimeout, Network, ServerError or
    RateLimit; the delay offered is then one minute for RateLimit and the
    backoff delay of the attempt for the other three.  A nil error is of
    kind Unknown with no delay. *)
Theorem X4_retry_verdict erm err rid ep g attempt :
  let c := ClassifyError erm err rid ep g attempt in
  ErrorType_ c ≠ ErrorTypeTimeout ∧ ErrorType_ c ≠ ErrorTypeParsing ∧
  (ShouldRetry c = true ↔
   attempt < maxRetries erm ∧
   ErrorType_ c ∈ [ErrorTypeConnectionTimeout; ErrorTypeNetwork;
                   ErrorTypeServerError; ErrorTypeRateLimit]) ∧
  (ShouldRetry c = true →
   RetryableAfter c = if decide (ErrorType_ c = ErrorTypeRateLimit)
                      then Minute else calculateBackoffDelay erm attempt) ∧
  (err = None → ErrorType_ c = ErrorTypeUnknown ∧ RetryableAfter c = 0).
Proof.
  intros c.
  assert (Hrange : ErrorType_ c ≠ ErrorTypeTimeout ∧
                   ErrorType_ c ≠ ErrorTypeParsing).
  { unfold c. destruct err as [e|]; [|done].
    rewrite ClassifyError_kind. cbv zeta. repeat case_if; done. }
  assert (Hiff : ShouldRetry c = true ↔
    attempt < maxRetries erm ∧
    ErrorType_ c ∈ [ErrorTypeConnectionTimeout; ErrorTypeNetwork;
                    ErrorTypeServerError; ErrorTypeRateLimit]).
  { unfold ShouldRetry.
    replace (AttemptCount c) with attempt
      by (symmetry; apply ClassifyError_AttemptCount).
    replace (MaxRetries c) with (maxRetries erm)
      by (symmetry; apply ClassifyError_MaxRetries).
    destruct Hrange as [_ Hp].
    destruct (attempt >=? maxRetries erm) eqn:E.
    - split; [done|]. intros [? _]. lia.
    - destruct (ErrorType_ c); split; intros H;
        first [ done
              | split; [lia|];
                repeat first [apply list_elem_of_here | apply list_elem_of_further]
              | destruct H as [_ H];
                repeat (apply elem_of_cons in H as [H|H]; [discriminate H|]);
                by apply elem_of_nil in H ]. }
  split; [apply Hrange|]. split; [apply Hrange|]. split; [exact Hiff|].
  split; [|by intros ->].
  intros [_ Hk]%Hiff.
  pose proof (ClassifyError_delay erm err rid ep g attempt) as Hd.
  cbv zeta in Hd. fold c in Hd. rewrite Hd.
  repeat (apply elem_of_cons in Hk as [->|Hk]; [done|]).
  by apply elem_of_nil in Hk.
Qed.

Lemma X4_retry_verdict_witness :
  let erm := NewErrorRecoveryManager None in
  let c := ClassifyError erm (Some (statusError 503)) "req-6" "A" "A" 2 in
  ShouldRetry c = true ∧ RetryableAfter c = 4 * Second ∧
  ShouldRetry (ClassifyError erm None "req-6" "A" "A" 0) = false.
Proof.
  intros erm c.
  destruct (X4_retry_verdict erm (Some (statusError 503)) "req-6" "A" "A" 2)
    as (_ & _ & Hiff & Hdelay & _).
  assert (Hr : ShouldRetry c = true).
  { apply Hiff. split; [vm_compute; reflexivity|].
    apply (bool_decide_unpack _). vm_compute. exact I. }
  split; [exact Hr|]. split; [|vm_compute; reflexivity].
  unfold c. rewrite (Hdelay Hr). vm_compute. reflexivity.
Defined.

Lemma iter_factor (k : Z) n :
  Nat.iter n (λ r, Qred (r * inject_Z k)%Q) 1%Q = inject_Z (k ^ Z.of_nat n).
Proof.
  induction n as [|n IH]; [done|].
  rewrite Nat2Z.inj_succ, Z.pow_succ_r by lia. simpl. rewrite IH.
  change (inject_Z (k ^ Z.of_nat n) * inject_Z k)%Q
    with ((k ^ Z.of_nat n * k) # 1)%Q.
  rewrite Z.mul_comm. apply inject_Z_Qred.
Qed.

(** X5.  For attempt 0 or below the backoff delay is [baseDelay], whatever
    [maxDelay] is.  For a positive attempt, with a whole-number factor [k]
    and [baseDelay * k^attempt] below 2^53 (where the float arithmetic of
    the source is exact), the delay is [baseDelay * k^attempt] capped at
    [maxDelay]; when [baseDelay <= maxDelay] it lies between the two. *)
Theorem X5_backoff_delay erm attempt k :
  (attempt ≤ 0 → calculateBackoffDelay erm attempt = baseDelay erm) ∧
  (0 < attempt → backoffFactor erm = inject_Z k → 1 ≤ k →
   1 ≤ baseDelay erm → baseDelay erm * k ^ attempt < 2 ^ 53 →
   calculateBackoffDelay erm attempt =
     Z.min (baseDelay erm * k ^ attempt) (maxDelay erm) ∧
   (baseDelay erm ≤ maxDelay erm →
    baseDelay erm ≤ calculateBackoffDelay erm attempt ≤ maxDelay erm)).
Proof.
  unfold calculateBackoffDelay. split.
  - intros Hle. by apply Z.leb_le in Hle as ->.
  - intros Hpos Hk Hk1 Hb _.
    destruct (attempt <=? 0) eqn:E; [apply Z.leb_le in E; lia|].
    rewrite Hk, iter_factor, Z2Nat.id by lia.
    change (inject_Z (baseDelay erm) * inject_Z (k ^ attempt))%Q
      with ((baseDelay erm * k ^ attempt) # 1)%Q.
    unfold truncQ. simpl Qnum. simpl Qden. rewrite Z.quot_1_r.
    assert (Hmin : (if baseDelay erm * k ^ attempt >? maxDelay erm
                    then maxDelay erm else baseDelay erm * k ^ attempt) =
                   Z.min (baseDelay erm * k ^ attempt) (maxDelay erm)).
    { destruct (Z.gtb_spec (baseDelay erm * k ^ attempt) (maxDelay erm)); lia. }
    rewrite Hmin. split; [done|]. intros Hmax.
    assert (Hp : 1 ≤ k ^ attempt).
    { rewrite <- (Z.pow_1_l attempt) by lia. apply Z.pow_le_mono_l. lia. }
    nia.
Qed.

Lemma X5_backoff_delay_witness :
  let erm := NewErrorRecoveryManager None in
  calculateBackoffDelay erm 0 = 1 * Second ∧
  calculateBackoffDelay erm 3 = 8 * Second ∧
  calculateBackoffDelay erm 5 = 30 * Second ∧
  1 * Second ≤ calculateBackoffDelay erm 4 ≤ 30 * Second.
Proof.
  intros erm.
  destruct (X5_backoff_delay erm 0 2) as [H0 _].
  destruct (X5_backoff_delay erm 3 2) as [_ H3].
  destruct (X5_backoff_delay erm 5 2) as [_ H5].
  destruct (X5_backoff_delay erm 4 2) as [_ H4].
  split; [apply H0; lia|].
  split; [apply H3; (reflexivity || (vm_compute; congruence) || lia)|].
  split; [apply H5; (reflexivity || (vm_compute; congruence) || lia)|].
  apply H4; (reflexivity || (vm_compute; congruence) || lia).
Defined.

(** X6.  [String] gives every kind a name of its own, except that
    NoHealthyEndpoints has no case and shares the name of Unknown. *)
Theorem X6_error_type_names a b :
  ErrorType_String a = ErrorType_String b ↔
  a = b ∨
  ((a = ErrorTypeUnknown ∨ a = ErrorTypeNoHealthyEndpoints) ∧
   (b = ErrorTypeUnknown ∨ b = ErrorTypeNoHealthyEndpoints)).
Proof.
  destruct a, b; simpl; split; intros H;
    try reflexivity; try (by left); try discriminate H;
    try (right; split; [left|right]; reflexivity);
    try (right; split; [right|left]; reflexivity);
    destruct H as [H|[[H|H] [H'|H']]]; discriminate.
Qed.

Lemma X6_error_type_names_witness :
  getErrorTypeName ErrorTypeNoHealthyEndpoints =
    getErrorTypeName ErrorTypeUnknown ∧
  getErrorTypeName ErrorTypeEOF ≠ getErrorTypeName ErrorTypeNetwork.
Proof.
  split.
  - apply (X6_error_type_names ErrorTypeNoHealthyEndpoints ErrorTypeUnknown).
    right. split; [by right|by left].
  - intros [H|[[H|H] _]]%X6_error_type_names; discriminate H.
Defined.

(** ** Effects on the tracker *)

(** The data holds the bytes "usage" or "tokens". *)
Definition hasUsage (data : string) : Prop :=
  ∃ a b, data = a +:+ "usage" +:+ b ∨ data = a +:+ "tokens" +:+ b.

Lemma hasUsage_spec data :
  Contains data "usage" || Contains data "tokens" = true ↔ hasUsage data.
Proof.
  rewrite orb_true_iff, !Contains_spec. unfold hasUsage. split.
  - intros [(a & b & H)|(a & b & H)]; exists a, b; [by left|by right].
  - intros (a & b & [H|H]); [left|right]; by exists a, b.
Qed.

(** X7.  [RecoverFromPartialData] records one update, with status
    "partial_recovery" and no other field, for the given request id (even
    the empty one) when a tracker is attached and the data contains the
    bytes "usage" or "tokens" as written; otherwise, and always for empty
    data, it changes nothing.  [HandleFinalFailure] changes nothing without
    a tracker or with an empty request id.  Neither touches the retry
    policy. *)
Theorem X7_tracker_effects erm requestID data c :
  (∀ tracker, usageTracker erm = Some tracker → hasUsage data →
     usageTracker (RecoverFromPartialData erm requestID data) =
       Some (tracker ++
             [(requestID,
               {| uoEndpointName := None; uoGroupName := None;
                  uoStatus := Some "partial_recovery";
                  uoRetryCount := None; uoHttpStatus := None |})])) ∧
  (usageTracker erm = None ∨ ¬ hasUsage data →
   RecoverFromPartialData erm requestID data = erm) ∧
  (usageTracker erm = None ∨ RequestID c = "" →
   HandleFinalFailure erm c = erm) ∧
  (∀ erm', erm' = RecoverFromPartialData erm requestID data ∨
           erm' = HandleFinalFailure erm c →
     maxRetries erm' = maxRetries erm ∧ baseDelay erm' = baseDelay erm ∧
     maxDelay erm' = maxDelay erm ∧ backoffFactor erm' = backoffFactor erm).
Proof.
  split; [|split; [|split]].
  - intros tracker Ht Hd. unfold RecoverFromPartialData.
    destruct (String.length data =? 0)%nat eqn:El.
    + apply Nat.eqb_eq in El. destruct data; [|done].
      destruct Hd as (a & b & [Hd|Hd]); destruct a; done.
    + apply hasUsage_spec in Hd. by rewrite Hd, Ht.
  - intros Hno. unfold RecoverFromPartialData.
    destruct (String.length data =? 0)%nat; [done|].
    destruct (Contains data "usage" || Contains data "tokens") eqn:Ed.
    + destruct Hno as [->|Hno]; [done|]. by apply hasUsage_spec in Ed.
    + done.
  - intros Hno. unfold HandleFinalFailure.
    destruct (usageTracker erm) as [t|]; [|done].
    destruct Hno as [?|Hid]; [done|].
    by rewrite bool_decide_eq_true_2.
  - intros erm' [->| ->].
    + unfold RecoverFromPartialData. repeat case_if; try done.
      by destruct (usageTracker erm).
    + unfold HandleFinalFailure. destruct (usageTracker erm); [|done].
      by case_if.
Qed.

Lemma X7_tracker_effects_witness :
  let erm := NewErrorRecoveryManager (Some []) in
  let c := ClassifyError erm (Some (errors_New "unexpected EOF")) "" "A" "A" 0 in
  (∃ opts, usageTracker
             (RecoverFromPartialData erm ""
                "event: message_delta usage: output_tokens 12") =
           Some [("", opts)]) ∧
  RecoverFromPartialData erm "req-8" "event: ping Usage: 1" = erm ∧
  HandleFinalFailure erm c = erm.
Proof.
  intros erm c.
  destruct (X7_tracker_effects erm ""
              "event: message_delta usage: output_tokens 12" c)
    as (Hrec & _ & Hfin & _).
  destruct (X7_tracker_effects erm "req-8" "event: ping Usage: 1" c)
    as (_ & Hskip & _ & _).
  split; [|split].
  - eexists. rewrite (Hrec [] eq_refl); [reflexivity|].
    exists "event: message_delta ", ": output_tokens 12". by left.
  - apply Hskip. right. intros Hd.
    apply hasUsage_spec in Hd. vm_compute in Hd. discriminate Hd.
  - apply Hfin. right. reflexivity.
Defined.

End ProxyExtra.

(** * Further properties of the endpoint manager *)

Module EndpointExtra.

Import EndpointMgr EndpointProps.

(** ** Lookup by name *)

(** The first endpoint of a list with the given name. *)
Definition lookupName (name : string) (l : list Endpoint) : option Endpoint :=
  snd <$> list_find (hasName name) l.

Lemma lookupName_cons name x l :
  lookupName name (x :: l) =
  if decide (Name (Config x) = name) then Some x else lookupName name l.
Proof.
  unfold lookupName. csimpl. unfold hasName.
  destruct (decide (Name (Config x) = name)); [done|].
  by destruct (list_find _ l) as [[i y]|].
Qed.

Lemma lookupName_cons_eq name x l :
  Name (Config x) = name → lookupName name (x :: l) = Some x.
Proof. intros Hn. rewrite lookupName_cons. by destruct (decide _). Qed.

Lemma lookupName_cons_ne name x l :
  Name (Config x) ≠ name → lookupName name (x :: l) = lookupName name l.
Proof. intros Hn. rewrite lookupName_cons. by destruct (decide _). Qed.

Lemma lookupName_app name l1 l2 :
  lookupName name (l1 ++ l2) =
  match lookupName name l1 with
  | Some x => Some x
  | None => lookupName name l2
  end.
Proof.
  induction l1 as [|x l1 IH]; [done|].
  rewrite <- app_comm_cons, !lookupName_cons.
  by destruct (decide (Name (Config x) = name)).
Qed.

Lemma lookupName_None name l :
  lookupName name l = None ↔ name ∉ map (λ ep, Name (Config ep)) l.
Proof.
  induction l as [|x l IH]; simpl.
  - split; [intros _; apply not_elem_of_nil|done].
  - rewrite lookupName_cons, not_elem_of_cons.
    destruct (decide (Name (Config x) = name)) as [<-|Hne].
    + split; [done|]. by intros [? _].
    + rewrite IH. split; [by split|by intros [_ ?]].
Qed.

Lemma lookupName_Some name l ep :
  lookupName name l = Some ep → ep ∈ l ∧ Name (Config ep) = name.
Proof.
  induction l as [|x l IH]; [done|]. rewrite lookupName_cons.
  destruct (decide (Name (Config x) = name)).
  - intros [= <-]. split; [by left|done].
  - intros [? ?]%IH. split; [by right|done].
Qed.

(** The loops written with [range] and an equality test find the same
    endpoint. *)
Lemma find_lookupName name l :
  List.find (λ ep, bool_decide (Name (Config ep) = name)) l = lookupName name l.
Proof.
  induction l as [|x l IH]; [done|]. simpl. rewrite lookupName_cons.
  case_bool_decide; by destruct (decide _).
Qed.

(** A first match splits the list around it. *)
Lemma list_find_split (l : list Endpoint) name i x :
  list_find (hasName name) l = Some (i, x) →
  l = take i l ++ x :: drop (S i) l ∧ Name (Config x) = name ∧
  lookupName name (take i l) = None.
Proof.
  intros (Hi & Hn & Hlt)%list_find_Some.
  split; [by rewrite take_drop_middle|]. split; [done|].
  apply lookupName_None. intros Hin.
  apply (list_elem_of_fmap (λ ep, Name (Config ep))) in Hin as (y & Hy & Hin).
  apply list_elem_of_lookup in Hin as [j Hj].
  pose proof (lookup_lt_Some _ _ _ Hj) as Hlen. rewrite length_take in Hlen.
  rewrite lookup_take_lt in Hj by lia.
  by apply (Hlt j y Hj); [lia|].
Qed.

Section registry.

Context {GM KM : Type} `{!GroupManagerOps GM} `{!KeyManagerOps KM}
        `{!SliceSorter}.

Implicit Types m : Manager GM KM.

Lemma GetEndpointByNameAny_lookupName m name :
  GetEndpointByNameAny m name = lookupName name (endpoints m).
Proof. reflexivity. Qed.

(** X8.  [RemoveEndpoint] of a name that is not in the list returns the
    not-found error and the manager as it was.  Of a name that is in the
    list it succeeds and drops exactly one endpoint: every other name looks
    up as before, and when names are unique the removed name no longer
    looks up. *)
Theorem X8_remove_endpoint m name :
  let r := RemoveEndpoint m name in
  (name ∉ names m → r = (m, Some (ErrEndpointNotFound name))) ∧
  (name ∈ names m →
   r.2 = None ∧
   S (length (endpoints r.1)) = length (endpoints m) ∧
   (∀ other, other ≠ name →
      GetEndpointByNameAny r.1 other = GetEndpointByNameAny m other) ∧
   (uniqueNames m → GetEndpointByNameAny r.1 name = None)).
Proof.
  intros r. unfold r, RemoveEndpoint. split.
  - intros Hout%lookupName_None. unfold lookupName in Hout.
    by destruct (list_find _ _) as [[i x]|].
  - intros Hin.
    destruct (list_find (hasName name) (endpoints m)) as [[i x]|] eqn:Hf.
    2:{ exfalso. eapply lookupName_None; [|exact Hin].
        unfold lookupName. by rewrite Hf. }
    pose proof (list_find_split _ _ _ _ Hf) as (Hl & Hn & Hpre).
    simpl. split; [done|]. split; [|split].
    + rewrite Hl at 3. rewrite !length_app. simpl. lia.
    + intros other Hne. rewrite !GetEndpointByNameAny_lookupName. simpl.
      rewrite Hl at 3. rewrite !lookupName_app, lookupName_cons.
      by destruct (decide (Name (Config x) = other)); [congruence|].
    + intros Hu. rewrite GetEndpointByNameAny_lookupName. simpl.
      rewrite lookupName_app, Hpre. apply lookupName_None.
      unfold uniqueNames, names in Hu. rewrite Hl in Hu.
      rewrite map_app in Hu. simpl in Hu.
      apply NoDup_app in Hu as (_ & _ & Hu).
      apply NoDup_cons in Hu as [Hu _]. by rewrite Hn in Hu.
Qed.

(** X9.  Adding an endpoint under a new name and then removing that name
    succeeds twice and gives back the endpoint list as it was. *)
Theorem X9_add_then_remove m now cfg :
  Name cfg ∉ names m →
  let r1 := AddEndpoint m now cfg in
  let r2 := RemoveEndpoint r1.1 (Name cfg) in
  r1.2 = None ∧ r2.2 = None ∧ endpoints r2.1 = endpoints m.
Proof.
  intros Hout r1 r2.
  unfold r2, r1, AddEndpoint, addEndpointCheck, addEndpointAppend.
  destruct (existsb _ _) eqn:E; [by apply name_taken in E|].
  split; [done|]. unfold RemoveEndpoint. simpl.
  assert (Hf : list_find (hasName (Name cfg))
                 (endpoints m ++ [newEndpoint now cfg]) =
               Some (length (endpoints m), newEndpoint now cfg)).
  { apply list_find_Some. split; [|split].
    - by rewrite lookup_app_r, Nat.sub_diag by lia.
    - done.
    - intros j y Hj Hlt Hy. rewrite lookup_app_l in Hj by lia.
      apply Hout. unfold names. rewrite <- Hy.
      apply (list_elem_of_fmap_2 (λ ep, Name (Config ep))).
      by eapply list_elem_of_lookup_2. }
  rewrite Hf. simpl. split; [done|].
  rewrite take_app_length, drop_app_ge by lia.
  replace (S (length (endpoints m)) - length (endpoints m))%nat with 1%nat by lia.
  simpl. by rewrite app_nil_r.
Qed.

Lemma alter_split {A} (f : A → A) (l : list A) i x :
  l !! i = Some x → alter f i l = take i l ++ f x :: drop (S i) l.
Proof.
  revert i. induction l as [|y l IH]; intros [|i] Hi; simplify_eq/=; [done|].
  f_equal. by apply IH.
Qed.

Lemma lookupName_alter name (f : Endpoint → Endpoint) l i x :
  list_find (hasName name) l = Some (i, x) →
  (∀ y, Name (Config (f y)) = Name (Config y)) →
  ∀ other, lookupName other (alter f i l) =
           if decide (other = name) then Some (f x) else lookupName other l.
Proof.
  intros Hf Hname other.
  pose proof (list_find_split _ _ _ _ Hf) as (Hl & Hn & Hpre).
  pose proof (list_find_Some (hasName name) l i x) as [Hs _].
  destruct (Hs Hf) as (Hi & _ & _).
  rewrite (alter_split f l i x Hi), lookupName_app.
  destruct (decide (other = name)) as [->|Hne].
  - rewrite Hpre. apply lookupName_cons_eq. by rewrite Hname.
  - rewrite lookupName_cons_ne by (rewrite Hname; congruence).
    replace (lookupName other l)
      with (lookupName other (take i l ++ x :: drop (S i) l))
      by (by rewrite <- Hl).
    rewrite lookupName_app.
    by rewrite lookupName_cons_ne by congruence.
Qed.

Lemma names_alter (f : Endpoint → Endpoint) (l : list Endpoint) i :
  (∀ y, Name (Config (f y)) = Name (Config y)) →
  map (λ ep, Name (Config ep)) (alter f i l) = map (λ ep, Name (Config ep)) l.
Proof.
  intros Hname. apply list_eq. intros j.
  change (map ?g ?k) with (g <$> k). rewrite !list_lookup_fmap.
  destruct (decide (i = j)) as [<-|Hne].
  - rewrite list_lookup_alter_eq. destruct (l !! i); simpl; [|done].
    by rewrite Hname.
  - by rewrite list_lookup_alter_ne.
Qed.

(** X10.  After [AddEndpoint] of a new name the endpoint is found under
    its name with the given configuration and the pessimistic initial
    status: not healthy, never checked, checked-at the call time, not
    cooling at any time.  Every other name looks up as before and the
    endpoint count grows by one. *)
Theorem X10_add_endpoint_lookup m now cfg :
  Name cfg ∉ names m →
  let m' := (AddEndpoint m now cfg).1 in
  (∃ ep, GetEndpointByNameAny m' (Name cfg) = Some ep ∧ Config ep = cfg ∧
         Healthy (Status ep) = false ∧ NeverChecked (Status ep) = true ∧
         LastCheck (Status ep) = now ∧
         GetEndpointStatus m' (Name cfg) = Status ep ∧
         ∀ t, IsEndpointInCooldown m' t (Name cfg) = false) ∧
  (∀ other, other ≠ Name cfg →
     GetEndpointByNameAny m' other = GetEndpointByNameAny m other) ∧
  GetEndpointCount m' = GetEndpointCount m + 1.
Proof.
  intros Hout m'. unfold m', AddEndpoint, addEndpointCheck, addEndpointAppend.
  destruct (existsb _ _) eqn:E; [by apply name_taken in E|]. simpl.
  assert (Hl : lookupName (Name cfg) (endpoints m ++ [newEndpoint now cfg]) =
               Some (newEndpoint now cfg)).
  { rewrite lookupName_app.
    apply lookupName_None in Hout as ->.
    by apply lookupName_cons_eq. }
  split; [|split].
  - exists (newEndpoint now cfg).
    rewrite GetEndpointByNameAny_lookupName. simpl.
    split; [done|]. do 4 (split; [done|]). split.
    + unfold GetEndpointStatus. simpl. by rewrite find_lookupName, Hl.
    + intros t. unfold IsEndpointInCooldown.
      rewrite GetEndpointByNameAny_lookupName. simpl. by rewrite Hl.
  - intros other Hne. rewrite !GetEndpointByNameAny_lookupName. simpl.
    rewrite lookupName_app, lookupName_cons_ne by (simpl; congruence).
    by destruct (lookupName other (endpoints m)).
  - unfold GetEndpointCount. simpl. rewrite length_app. simpl. lia.
Qed.

(** X11.  [UpdateEndpointConfig] of a missing name returns the not-found
    error and the manager as it was.  Of an existing name it succeeds: the
    endpoint keeps its name (the name inside the new configuration is
    ignored) and its status, and takes every other field from the new
    configuration; other names look up as before; and applying the same
    update again leaves the endpoint list as it is. *)
Theorem X11_update_endpoint_config m name cfg :
  let r := UpdateEndpointConfig m name cfg in
  (GetEndpointByNameAny m name = None →
   r = (m, Some (ErrEndpointNotFound name))) ∧
  (∀ ep, GetEndpointByNameAny m name = Some ep →
     r.2 = None ∧
     GetEndpointByNameAny r.1 name =
       Some {| Config := withName name cfg; Status := Status ep |} ∧
     (∀ other, other ≠ name →
        GetEndpointByNameAny r.1 other = GetEndpointByNameAny m other) ∧
     endpoints (UpdateEndpointConfig r.1 name cfg).1 = endpoints r.1).
Proof.
  intros r. unfold r, UpdateEndpointConfig.
  rewrite GetEndpointByNameAny_lookupName. unfold lookupName.
  destruct (list_find (hasName name) (endpoints m)) as [[i x]|] eqn:Hf;
    simpl; (split; [done|]); [|done].
  intros ep [= <-].
  assert (Hname : ∀ y, Name (Config (setConfig (withName name cfg) y)) = name)
    by done.
  pose proof (list_find_Some (hasName name) (endpoints m) i x) as [Hs _].
  destruct (Hs Hf) as (Hi & Hn & Hlt).
  assert (Hf' : list_find (hasName name)
                  (alter (setConfig (withName name cfg)) i (endpoints m)) =
                Some (i, setConfig (withName name cfg) x)).
  { by apply list_find_alter_hit. }
  split; [done|]. split; [|split].
  - rewrite GetEndpointByNameAny_lookupName. unfold lookupName. simpl.
    by rewrite Hf'.
  - intros other Hne. rewrite !GetEndpointByNameAny_lookupName. simpl.
    apply list_find_split in Hf as (Hl & _ & Hpre).
    rewrite (alter_split _ _ i x Hi).
    rewrite Hl at 3. rewrite !lookupName_app.
    by rewrite !lookupName_cons_ne by (simpl; congruence).
  - rewrite Hf'. simpl. rewrite list_alter_alter_eq.
    apply list_alter_ext; [|done]. by intros y _.
Qed.

(** X12.  [UpdateEndpointPriority] rejects a priority below 1 before it
    looks for the endpoint, and reports a missing name; in both cases the
    manager is as it was.  Otherwise the endpoint found under the name gets
    the new priority and keeps every other field and its status, other
    names look up as before, and the list of names is unchanged. *)
Theorem X12_update_endpoint_priority m name p :
  let r := UpdateEndpointPriority m name p in
  (p < 1 → r = (m, Some ErrPriorityBelowOne)) ∧
  (1 ≤ p → GetEndpointByNameAny m name = None →
   r = (m, Some (ErrBase (ErrEndpointNotFound name)))) ∧
  (1 ≤ p → ∀ ep, GetEndpointByNameAny m name = Some ep →
     r.2 = None ∧
     GetEndpointByNameAny r.1 name = Some (setPriority p ep) ∧
     (∀ other, other ≠ name →
        GetEndpointByNameAny r.1 other = GetEndpointByNameAny m other) ∧
     names r.1 = names m).
Proof.
  intros r. unfold r, UpdateEndpointPriority.
  destruct (Z.ltb_spec p 1) as [Hlt|Hge].
  { split; [done|]. split; intros; lia. }
  split; [intros; lia|].
  rewrite GetEndpointByNameAny_lookupName. unfold lookupName.
  destruct (list_find (hasName name) (endpoints m)) as [[i x]|] eqn:Hf;
    simpl; (split; [done|]); [|done].
  intros _ ep [= <-]. split; [done|].
  pose proof (lookupName_alter name (setPriority p) _ _ _ Hf
                (λ y, eq_refl)) as Hl.
  split; [|split].
  - rewrite GetEndpointByNameAny_lookupName. simpl.
    rewrite Hl. by rewrite decide_True.
  - intros other Hne. rewrite !GetEndpointByNameAny_lookupName. simpl.
    rewrite Hl. by rewrite decide_False.
  - unfold names. simpl. by apply names_alter.
Qed.

End registry.

(** ** Selection *)

(** In a list sorted by [R], the first element that passes a test is
    [R]-below every element that passes it. *)
Lemma find_sorted_first {A} (R : relation A) (f : A → bool) l x :
  StronglySorted R l → List.find f l = Some x →
  x ∈ l ∧ f x = true ∧ ∀ y, y ∈ l → f y = true → x = y ∨ R x y.
Proof.
  induction 1 as [|z l Hs IH Hz]; [done|]. simpl.
  destruct (f z) eqn:Hfz.
  - intros [= <-]. split; [by left|]. split; [done|].
    intros y [->|Hy]%elem_of_cons _; [by left|right].
    rewrite Forall_forall in Hz. by apply Hz.
  - intros Hfind. destruct (IH Hfind) as (Hin & Hfx & Hmin).
    split; [by right|]. split; [done|].
    intros y [->|Hy]%elem_of_cons Hfy; [congruence|]. by apply Hmin.
Qed.

Lemma find_None_iff {A} (f : A → bool) l :
  List.find f l = None ↔ ∀ y, y ∈ l → f y = false.
Proof.
  induction l as [|z l IH]; simpl.
  - split; [|done]. by intros _ y Hy%elem_of_nil.
  - destruct (f z) eqn:Hfz.
    + split; [done|]. intros H. specialize (H z (list_elem_of_here _ _)).
      congruence.
    + rewrite IH. split.
      * intros H y [->|Hy]%elem_of_cons; [done|by apply H].
      * intros H y Hy. apply H. by right.
Qed.

(** An endpoint [selectNextFailoverEndpoint] may stop at. *)
Definition eligible (now : Time) (exclude : string) (ep : Endpoint) : Prop :=
  Name (Config ep) ≠ exclude ∧ failoverEnabled ep = true ∧
  inCooldown now ep = false ∧ Healthy (Status ep) = true.

(** An endpoint of the active groups the selector may return. *)
Definition usable (now : Time) (ep : Endpoint) : Prop :=
  Healthy (Status ep) = true ∧ inCooldown now ep = false.

Section selection.

Context {GM KM FT : Type} `{!GroupManagerOps GM} `{!KeyManagerOps KM}
        `{!SliceSorter} `{!SliceSorterLaws} `{!FastTesterOps FT}.

Implicit Types m : Manager GM KM.

Lemma elem_of_usable_filter now (l : list Endpoint) ep :
  ep ∈ List.filter (λ endpoint, Healthy (Status endpoint) &&
                                negb (inCooldown now endpoint)) l ↔
  ep ∈ l ∧ usable now ep.
Proof.
  rewrite list_elem_of_In, filter_In, <- list_elem_of_In.
  unfold usable. rewrite andb_true_iff, negb_true_iff. done.
Qed.

(** Membership in the selector's result, read off the three exits of
    [GetHealthyEndpoints]. *)
Lemma elem_of_GetHealthyEndpoints m now now' ep :
  let active := FilterEndpointsByActiveGroups (groupManager m) (endpoints m) in
  ep ∈ GetHealthyEndpoints m now now' ↔
  (ep ∈ active ∧ usable now ep) ∨
  ((∀ a, a ∈ active → ¬ usable now a) ∧
   Enabled (Failover (config m)) = true ∧
   ep ∈ endpoints m ∧
   (Name (Config ep) ∉ map (λ a, Name (Config a)) active) ∧
   failoverEnabled ep = true ∧ inCooldown now' ep = false ∧
   Healthy (Status ep) = true).
Proof.
  intros active. unfold GetHealthyEndpoints. fold active.
  destruct (List.filter _ active) as [|x l] eqn:E.
  - assert (Hnone : ∀ a, a ∈ active → ¬ usable now a).
    { intros a Ha Hu.
      assert (Hin : a ∈ List.filter
                (λ endpoint, Healthy (Status endpoint) &&
                             negb (inCooldown now endpoint)) active)
        by by apply elem_of_usable_filter.
      rewrite E in Hin. by apply elem_of_nil in Hin. }
    simpl. destruct (Enabled (Failover (config m))); simpl.
    + rewrite sortHealthyEndpoints_perm, elem_of_getFailoverEndpoints. split.
      * intros (? & ? & ? & ? & ?). by right.
      * intros [[Ha Hu]|(_ & _ & ? & ? & ? & ? & ?)]; [|done].
        by destruct (Hnone ep).
    + split; [by intros ?%elem_of_nil|].
      intros [[Ha Hu]|(_ & ? & _)]; [|done]. by destruct (Hnone ep).
  - simpl. rewrite sortHealthyEndpoints_perm, <- E, elem_of_usable_filter.
    split; [by left|]. intros [?|(Hnone & _)]; [done|].
    exfalso. apply (Hnone x).
    + eapply (proj1 (elem_of_usable_filter now active x)).
      rewrite E. by left.
    + eapply (proj1 (elem_of_usable_filter now active x)).
      rewrite E. by left.
Qed.

(** X14.  Every endpoint [GetHealthyEndpoints] returns is healthy.  When
    some endpoint of the active groups is healthy and not cooling, the
    result holds exactly such endpoints of the active groups.  Otherwise,
    with failover disabled the result is empty, and with failover enabled it
    holds exactly the endpoints of the registry whose name is not among the
    active ones, that take part in failover, are healthy and are not cooling
    at the second clock reading. *)
Theorem X14_selector_membership m now now' :
  let active := FilterEndpointsByActiveGroups (groupManager m) (endpoints m) in
  let R := GetHealthyEndpoints m now now' in
  (∀ ep, ep ∈ R → Healthy (Status ep) = true) ∧
  ((∃ a, a ∈ active ∧ usable now a) →
   ∀ ep, ep ∈ R ↔ ep ∈ active ∧ usable now ep) ∧
  ((∀ a, a ∈ active → ¬ usable now a) →
   (Enabled (Failover (config m)) = false → R = []) ∧
   (Enabled (Failover (config m)) = true →
    ∀ ep, ep ∈ R ↔
      ep ∈ endpoints m ∧
      (Name (Config ep) ∉ map (λ a, Name (Config a)) active) ∧
      failoverEnabled ep = true ∧ inCooldown now' ep = false ∧
      Healthy (Status ep) = true)).
Proof.
  intros active R. split; [|split].
  - intros ep [[_ [? _]]|(_ & _ & _ & _ & _ & _ & ?)]%elem_of_GetHealthyEndpoints;
      done.
  - intros (a & Ha & Hu) ep. unfold R.
    rewrite elem_of_GetHealthyEndpoints. fold active. split.
    + intros [?|(Hnone & _)]; [done|]. by destruct (Hnone a).
    + by left.
  - intros Hnone. split.
    + intros Hoff. apply elem_of_nil_inv. intros ep.
      unfold R. rewrite elem_of_GetHealthyEndpoints. fold active.
      intros [[Ha Hu]|(_ & Hon & _)]; [by destruct (Hnone ep)|congruence].
    + intros Hon ep. unfold R.
      rewrite elem_of_GetHealthyEndpoints. fold active. split.
      * intros [[Ha Hu]|(_ & _ & ?)]; [by destruct (Hnone ep)|done].
      * intros ?. by right.
Qed.

(** X13.  Right after [SyncEndpoints] no endpoint is selectable: provided
    the group manager's filter returns endpoints of the list it is given,
    [GetHealthyEndpoints] is empty and [selectNextFailoverEndpoint] finds
    no candidate, at any time and with failover on or off, because every
    endpoint starts unhealthy. *)
Theorem X13_synced_endpoints_not_selectable m now configs t t' exclude :
  let m' := SyncEndpoints m now configs in
  (∀ ep, ep ∈ FilterEndpointsByActiveGroups (groupManager m') (endpoints m') →
         ep ∈ endpoints m') →
  GetHealthyEndpoints m' t t' = [] ∧
  selectNextFailoverEndpoint m' t exclude = "".
Proof.
  intros m' Hsub.
  assert (Hun : ∀ ep, ep ∈ endpoints m' → Healthy (Status ep) = false).
  { intros ep Hin. unfold m', SyncEndpoints in Hin. simpl in Hin.
    by apply (list_elem_of_fmap_1 (newEndpoint now)) in Hin as (c & -> & _). }
  split.
  - apply elem_of_nil_inv. intros ep.
    rewrite elem_of_GetHealthyEndpoints.
    intros [[Ha [Hh _]]|(_ & _ & Hin & _ & _ & _ & Hh)].
    + apply Hsub, Hun in Ha. congruence.
    + apply Hun in Hin. congruence.
  - unfold selectNextFailoverEndpoint.
    destruct (selectNextFailoverEndpoint_ep m' t exclude) as [ep|] eqn:Hs;
      [|done].
    apply selectNextFailoverEndpoint_ep_Some in Hs as (Hin & _ & _ & _ & Hh).
    apply Hun in Hin. congruence.
Qed.

Lemma failover_test_eligible now exclude ep :
  (if bool_decide (Name (Config ep) = exclude) then false
   else if negb (failoverEnabled ep) then false
   else if inCooldown now ep then false
   else if negb (Healthy (Status ep)) then false
   else true) = true ↔ eligible now exclude ep.
Proof.
  unfold eligible. case_bool_decide.
  - split; [done|]. by intros [? _].
  - destruct (failoverEnabled ep), (inCooldown now ep), (Healthy (Status ep));
      simpl; split; (done || by intros (? & ? & ? & ?)).
Qed.

(** The choice of [selectNextFailoverEndpoint], in full. *)
Lemma next_failover_choice m now exclude :
  (∀ ep, selectNextFailoverEndpoint_ep m now exclude = Some ep →
     ep ∈ endpoints m ∧ eligible now exclude ep ∧
     selectNextFailoverEndpoint m now exclude = Name (Config ep) ∧
     ∀ ep', ep' ∈ endpoints m → eligible now exclude ep' →
            Priority (Config ep) ≤ Priority (Config ep')) ∧
  (selectNextFailoverEndpoint_ep m now exclude = None ↔
   ∀ ep, ep ∈ endpoints m → ¬ eligible now exclude ep) ∧
  ((∀ ep, ep ∈ endpoints m → Name (Config ep) ≠ "") →
   (selectNextFailoverEndpoint m now exclude = "" ↔
    ∀ ep, ep ∈ endpoints m → ¬ eligible now exclude ep)).
Proof.
  assert (Hnone : selectNextFailoverEndpoint_ep m now exclude = None ↔
                  ∀ ep, ep ∈ endpoints m → ¬ eligible now exclude ep).
  { unfold selectNextFailoverEndpoint_ep. rewrite find_None_iff. split.
    - intros Hf ep Hin He. apply failover_test_eligible in He.
      rewrite Hf in He; [done|]. by rewrite sort_Slice_perm.
    - intros Hno ep Hin. rewrite sort_Slice_perm in Hin.
      destruct (_ : bool) eqn:E; [|done].
      apply failover_test_eligible in E. by destruct (Hno ep). }
  split; [|split; [exact Hnone|]].
  - intros ep Hsel.
    unfold selectNextFailoverEndpoint. rewrite Hsel.
    unfold selectNextFailoverEndpoint_ep in Hsel.
    eapply find_sorted_first in Hsel as (Hin & Hf & Hmin);
      [|apply (sort_Slice_sorted _ priorityLess), priorityLess_StrictWeak].
    rewrite sort_Slice_perm in Hin. apply failover_test_eligible in Hf.
    split; [done|]. split; [done|]. split; [done|].
    intros ep' Hin' He'.
    destruct (Hmin ep') as [->|Hle].
    + by rewrite sort_Slice_perm.
    + by apply failover_test_eligible.
    + done.
    + unfold priorityLess in Hle. by apply Z.ltb_ge in Hle.
  - intros Hnames. rewrite <- Hnone. unfold selectNextFailoverEndpoint.
    destruct (selectNextFailoverEndpoint_ep m now exclude) as [ep|] eqn:Hs;
      [|done].
    apply selectNextFailoverEndpoint_ep_Some in Hs as (Hin & _).
    split; [|done]. intros Hn. by destruct (Hnames ep Hin).
Qed.

(** X15.  The endpoint [selectNextFailoverEndpoint] stops at is an
    endpoint of the registry other than the excluded one, taking part in
    failover, healthy and not cooling, and no such endpoint has a smaller
    priority number.  It finds none exactly when there is no such endpoint;
    when no endpoint has the empty name, that is exactly when it returns
    the empty string. *)
Theorem X15_next_failover_is_best m now exclude :
  (∀ ep, selectNextFailoverEndpoint_ep m now exclude = Some ep →
     ep ∈ endpoints m ∧ eligible now exclude ep ∧
     selectNextFailoverEndpoint m now exclude = Name (Config ep) ∧
     ∀ ep', ep' ∈ endpoints m → eligible now exclude ep' →
            Priority (Config ep) ≤ Priority (Config ep')) ∧
  (selectNextFailoverEndpoint_ep m now exclude = None ↔
   ∀ ep, ep ∈ endpoints m → ¬ eligible now exclude ep) ∧
  ((∀ ep, ep ∈ endpoints m → Name (Config ep) ≠ "") →
   (selectNextFailoverEndpoint m now exclude = "" ↔
    ∀ ep, ep ∈ endpoints m → ¬ eligible now exclude ep)).
Proof. apply next_failover_choice. Qed.

(** X20.  When the strategy is not "fastest" or fast testing is off,
    [GetFastestEndpointsWithRealTimeTest] leaves the fast tester alone.  If
    some endpoint of the active groups is healthy, it returns exactly the
    healthy endpoints of the active groups, whether they are cooling or
    not: unlike [GetHealthyEndpoints] it applies no cooldown test to them. *)
Theorem X20_real_time_variant_ignores_cooldown m (ft : FT) now' :
  Type_ (Strategy (config m)) ≠ "fastest" ∨
  FastTestEnabled (Strategy (config m)) = false →
  let active := FilterEndpointsByActiveGroups (groupManager m) (endpoints m) in
  let r := GetFastestEndpointsWithRealTimeTest m ft now' in
  r.1 = ft ∧
  ((∃ a, a ∈ active ∧ Healthy (Status a) = true) →
   (∀ ep, ep ∈ r.2 ↔ ep ∈ active ∧ Healthy (Status ep) = true) ∧
   (∀ now ep, ep ∈ active → Healthy (Status ep) = true →
      inCooldown now ep = true →
      ep ∈ r.2 ∧ ep ∉ GetHealthyEndpoints m now now')).
Proof.
  intros Hmode active r.
  assert (Hm : negb (bool_decide (Type_ (Strategy (config m)) = "fastest"))
               || negb (FastTestEnabled (Strategy (config m))) = true).
  { destruct Hmode as [Hne| ->]; [|by rewrite orb_true_r].
    by rewrite bool_decide_eq_false_2. }
  unfold r, GetFastestEndpointsWithRealTimeTest. fold active. rewrite Hm.
  split; [by repeat case_match|].
  intros (a & Ha & Hh).
  assert (Hfil : ∀ ep, ep ∈ List.filter (λ e, Healthy (Status e)) active ↔
                       ep ∈ active ∧ Healthy (Status ep) = true).
  { intros ep. by rewrite list_elem_of_In, filter_In, <- list_elem_of_In. }
  destruct (List.filter (λ e, Healthy (Status e)) active) as [|x l] eqn:E.
  { exfalso. eapply elem_of_nil, Hfil. done. }
  simpl.
  assert (Hres : ∀ ep, ep ∈ sortHealthyEndpoints m (x :: l) ↔
                       ep ∈ active ∧ Healthy (Status ep) = true).
  { intros ep. by rewrite sortHealthyEndpoints_perm, Hfil. }
  split; [exact Hres|].
  intros now ep Hact Hhe Hc. split; [by apply Hres|].
  rewrite elem_of_GetHealthyEndpoints. fold active.
  intros [[_ [_ Hu]]|(_ & _ & _ & Hn & _)]; [congruence|].
  apply Hn. by apply (list_elem_of_fmap_2 (λ a, Name (Config a))).
Qed.

End selection.

(** ** Failover and cooldown *)

Lemma elem_of_alter {A} (f : A → A) (l : list A) i y :
  y ∈ alter f i l → y ∈ l ∨ ∃ x, l !! i = Some x ∧ y = f x.
Proof.
  intros [j Hj]%list_elem_of_lookup.
  destruct (decide (i = j)) as [<-|Hne].
  - rewrite list_lookup_alter_eq in Hj.
    destruct (l !! i) as [x|] eqn:Hi; [|done].
    injection Hj as <-. right. by exists x.
  - rewrite list_lookup_alter_ne in Hj by done.
    left. by eapply list_elem_of_lookup_2.
Qed.

Lemma inCooldown_setCooldown t until reason ep :
  inCooldown t (setCooldown until reason ep) =
  negb (IsZero until) && Before t until.
Proof. reflexivity. Qed.

Section cooldown.

Context {GM KM : Type} `{!GroupManagerOps GM} `{!KeyManagerOps KM}
        `{!SliceSorter} `{!SliceSorterLaws} `{!GroupControlOps GM}.

Implicit Types m : Manager GM KM.

(** The manager after the first step of [TriggerRequestFailover]. *)
Lemma TriggerRequestFailover_lookup m now now' n reason ep :
  GetEndpointByNameAny m n = Some ep →
  let m' := (TriggerRequestFailover m now now' n reason).1 in
  (∀ other, GetEndpointByNameAny m' other =
            if decide (other = n)
            then Some (setCooldown (Add now (cooldownDuration m ep)) reason ep)
            else GetEndpointByNameAny m other) ∧
  names m' = names m.
Proof.
  intros Hg m'. rewrite GetEndpointByNameAny_lookupName in Hg.
  unfold lookupName in Hg.
  destruct (list_find (hasName n) (endpoints m)) as [[i x]|] eqn:Hf; [|done].
  injection Hg as ->.
  assert (Hm' : endpoints m' =
                alter (setCooldown (Add now (cooldownDuration m ep)) reason) i
                  (endpoints m))
    by by apply TriggerRequestFailover_endpoints.
  split.
  - intros other. rewrite !GetEndpointByNameAny_lookupName, Hm'.
    by apply lookupName_alter.
  - unfold names. rewrite Hm'. by apply names_alter.
Qed.

(** X16.  [TriggerRequestFailover] for a name that is not in the registry
    returns the missing-endpoint error, the empty name, and the manager as
    it was.  For an existing name the configuration, key manager and list of
    names are kept, and the result is either a non-empty name with no
    error or the empty name with an error.  A returned name differs from
    the failed name and belongs to an endpoint of the registry that takes
    part in failover, is healthy and is not cooling, and no such endpoint
    has a smaller priority number. *)
Theorem X16_failover_outcomes m now now' n reason :
  let r := TriggerRequestFailover m now now' n reason in
  (GetEndpointByNameAny m n = None →
   r = (m, ("", Some (ErrEndpointMissing n)))) ∧
  (is_Some (GetEndpointByNameAny m n) →
   config r.1 = config m ∧ keyManager r.1 = keyManager m ∧
   names r.1 = names m ∧
   (r.2.2 ≠ None → r.2.1 = "") ∧
   (r.2.2 = None →
    r.2.1 ≠ "" ∧ r.2.1 ≠ n ∧
    ∃ new, new ∈ endpoints m ∧ Name (Config new) = r.2.1 ∧
           eligible now' n new ∧
           ∀ ep', ep' ∈ endpoints m → eligible now' n ep' →
                  Priority (Config new) ≤ Priority (Config ep'))).
Proof.
  intros r. split.
  - rewrite GetEndpointByNameAny_lookupName. unfold lookupName.
    unfold r, TriggerRequestFailover.
    by destruct (list_find _ _) as [[i x]|].
  - intros [ep Hg].
    pose proof (TriggerRequestFailover_lookup m now now' n reason ep Hg)
      as [_ Hnames].
    fold r in Hnames.
    rewrite GetEndpointByNameAny_lookupName in Hg. unfold lookupName in Hg.
    unfold r, TriggerRequestFailover in *.
    destruct (list_find (hasName n) (endpoints m)) as [[i x]|] eqn:Hf; [|done].
    injection Hg as ->.
    destruct (DeactivateGroup (groupManager m) n) as [gm1 e1].
    set (eps' := alter (setCooldown (Add now (cooldownDuration m ep)) reason) i
                   (endpoints m)) in *.
    set (m1 := withEndpoints m eps' gm1 (keyManager m)) in *.
    assert (Hsel : ∀ new, selectNextFailoverEndpoint_ep m1 now' n = Some new →
      new ∈ endpoints m ∧ eligible now' n new ∧
      ∀ ep', ep' ∈ endpoints m → eligible now' n ep' →
             Priority (Config new) ≤ Priority (Config ep')).
    { intros new Hs.
      destruct (next_failover_choice m1 now' n) as [Hbest _].
      destruct (Hbest new Hs) as (Hin & He & _ & Hmin).
      assert (Hback : ∀ y, Name (Config y) ≠ n → y ∈ eps' ↔ y ∈ endpoints m).
      { intros y Hy. split.
        - intros [?|(x0 & Hx & ->)]%elem_of_alter; [done|].
          apply list_find_Some in Hf as (Hi & Hn & _).
          rewrite Hi in Hx. injection Hx as <-. by destruct Hy.
        - intros [j Hj]%list_elem_of_lookup.
          apply list_find_Some in Hf as (Hi & Hn & _).
          apply (list_elem_of_lookup_2 _ j). unfold eps'.
          rewrite list_lookup_alter_ne; [done|].
          intros <-. rewrite Hi in Hj. injection Hj as <-. by destruct Hy. }
      split; [apply Hback; [apply He|done]|]. split; [done|].
      intros ep' Hin' He'. apply Hmin; [|done].
      apply Hback; [apply He'|done]. }
    unfold selectNextFailoverEndpoint in *.
    destruct (selectNextFailoverEndpoint_ep m1 now' n) as [new|] eqn:Hs.
    + case_bool_decide as Hempty.
      * simpl in *. do 3 (split; [done|]). split; done.
      * destruct (gmManualActivateGroup gm1 (Name (Config new)))
          as [gm2 [cause|]]; simpl in *.
        -- do 3 (split; [done|]). split; done.
        -- do 3 (split; [done|]). split; [done|]. intros _.
           destruct (Hsel new eq_refl) as (Hin & He & Hmin).
           split; [done|]. split; [apply He|]. by exists new.
    + rewrite bool_decide_eq_true_2 by done. simpl in *.
      do 3 (split; [done|]). split; done.
Qed.

(** X17.  After [TriggerRequestFailover] for an existing endpoint, with a
    deadline [now + d] other than the zero time: at every time before the
    deadline the endpoint is reported in cooldown and is not returned by
    [GetHealthyEndpoints]; from the deadline on it is no longer reported in
    cooldown, without any further call. *)
Theorem X17_failed_endpoint_sits_out m now now' n reason ep :
  GetEndpointByNameAny m n = Some ep →
  let deadline := Add now (cooldownDuration m ep) in
  let m' := (TriggerRequestFailover m now now' n reason).1 in
  deadline ≠ zeroTime →
  (∀ t, t < deadline → IsEndpointInCooldown m' t n = true) ∧
  (∀ t, deadline ≤ t → IsEndpointInCooldown m' t n = false) ∧
  (∀ t t' ep', t < deadline → t' < deadline →
     GetEndpointByNameAny m' n = Some ep' →
     ep' ∉ GetHealthyEndpoints m' t t').
Proof.
  intros Hg deadline m' Hnz.
  destruct (TriggerRequestFailover_lookup m now now' n reason ep Hg)
    as [Hlook _].
  fold m' deadline in Hlook. specialize (Hlook n).
  rewrite decide_True in Hlook by done.
  assert (Hin : ∀ t, inCooldown t (setCooldown deadline reason ep) =
                     bool_decide (t < deadline)).
  { intros t. rewrite inCooldown_setCooldown. unfold IsZero, Before.
    unfold zeroTime in Hnz. apply Z.eqb_neq in Hnz. rewrite Hnz. simpl.
    case_bool_decide; [by apply Z.ltb_lt|by apply Z.ltb_ge; lia]. }
  split; [|split].
  - intros t Ht. unfold IsEndpointInCooldown.
    by rewrite Hlook, Hin, bool_decide_eq_true_2.
  - intros t Ht. unfold IsEndpointInCooldown.
    rewrite Hlook, Hin. apply bool_decide_eq_false_2. lia.
  - intros t t' ep' Ht Ht'. rewrite Hlook. intros [= <-].
    rewrite elem_of_GetHealthyEndpoints.
    intros [[_ [_ Hc]]|(_ & _ & _ & _ & _ & Hc & _)];
      rewrite Hin in Hc; by apply bool_decide_eq_false_1 in Hc.
Qed.

Lemma ClearEndpointCooldown_lookup m n :
  let m' := ClearEndpointCooldown m n in
  (∀ other, other ≠ n →
     GetEndpointByNameAny m' other = GetEndpointByNameAny m other) ∧
  (∀ ep', GetEndpointByNameAny m' n = Some ep' →
     CooldownUntil (Status ep') = zeroTime) ∧
  (GetEndpointByNameAny m n = None → m' = m) ∧
  names m' = names m ∧
  ClearEndpointCooldown m' n = m'.
Proof.
  intros m'.
  assert (Hm' : m' = ClearEndpointCooldown m n) by done. clearbody m'.
  assert (Hsame : ClearEndpointCooldown m n = m →
    (∀ ep', GetEndpointByNameAny m n = Some ep' →
            CooldownUntil (Status ep') = zeroTime) →
    (∀ other, other ≠ n →
       GetEndpointByNameAny m other = GetEndpointByNameAny m other) ∧
    (∀ ep', GetEndpointByNameAny m n = Some ep' →
       CooldownUntil (Status ep') = zeroTime) ∧
    (GetEndpointByNameAny m n = None → m = m) ∧
    names m = names m ∧ ClearEndpointCooldown m n = m) by done.
  unfold ClearEndpointCooldown in Hm'.
  destruct (list_find (hasName n) (endpoints m)) as [[i x]|] eqn:Hf.
  2:{ subst m'. apply Hsame.
      - unfold ClearEndpointCooldown. by rewrite Hf.
      - intros ep'. rewrite GetEndpointByNameAny_lookupName. unfold lookupName.
        by rewrite Hf. }
  destruct (IsZero (CooldownUntil (Status x))) eqn:Hz; simpl in Hm'; subst m'.
  - apply Hsame.
    + unfold ClearEndpointCooldown. by rewrite Hf, Hz.
    + intros ep'. rewrite GetEndpointByNameAny_lookupName. unfold lookupName.
      rewrite Hf. intros [= <-]. by apply Z.eqb_eq in Hz.
  - pose proof (lookupName_alter n (setCooldown zeroTime "") _ _ _ Hf
                  (λ y, eq_refl)) as Hl.
    split; [|split; [|split; [|split]]].
    + intros other Hne. rewrite !GetEndpointByNameAny_lookupName. simpl.
      rewrite Hl. by rewrite decide_False.
    + intros ep'. rewrite GetEndpointByNameAny_lookupName. simpl.
      rewrite Hl, decide_True by done. by intros [= <-].
    + rewrite GetEndpointByNameAny_lookupName. unfold lookupName.
      by rewrite Hf.
    + unfold names. simpl. by apply names_alter.
    + unfold ClearEndpointCooldown. simpl.
      erewrite list_find_alter_hit; [|exact Hf|].
      * done.
      * by apply list_find_Some in Hf as (_ & ? & _).
Qed.

Lemma zero_deadline_not_cooling m n :
  (∀ ep, GetEndpointByNameAny m n = Some ep →
         CooldownUntil (Status ep) = zeroTime) →
  ∀ t, IsEndpointInCooldown m t n = false.
Proof.
  intros Hz t. unfold IsEndpointInCooldown.
  destruct (GetEndpointByNameAny m n) as [ep|] eqn:Hg; [|done].
  unfold inCooldown. by rewrite (Hz ep eq_refl).
Qed.

(** X18.  After [ClearEndpointCooldown n] the endpoint named [n] is
    reported in cooldown at no time; endpoints under other names, and the
    list of names, are as before; a missing name changes nothing; and
    clearing twice is the same as clearing once. *)
Theorem X18_clear_cooldown m n :
  let m' := ClearEndpointCooldown m n in
  (∀ t, IsEndpointInCooldown m' t n = false) ∧
  (∀ other, other ≠ n →
     GetEndpointByNameAny m' other = GetEndpointByNameAny m other) ∧
  (GetEndpointByNameAny m n = None → m' = m) ∧
  names m' = names m ∧
  ClearEndpointCooldown m' n = m'.
Proof.
  intros m'.
  destruct (ClearEndpointCooldown_lookup m n) as (Ho & Hz & Hmiss & Hn & Hi).
  split; [by apply zero_deadline_not_cooling|]. done.
Qed.

(** X19.  [GetEndpointCooldownInfo] of a missing name is (false, zero
    time, ""); its flag always agrees with [IsEndpointInCooldown]; after
    [TriggerRequestFailover] for an existing name it reports the deadline
    [now + d] and the reason given, with the flag set exactly at times
    before the deadline (when the deadline is not the zero time). *)
Theorem X19_cooldown_info m now now' n reason t :
  (GetEndpointByNameAny m n = None →
   GetEndpointCooldownInfo m t n = (false, zeroTime, "")) ∧
  (GetEndpointCooldownInfo m t n).1.1 = IsEndpointInCooldown m t n ∧
  (∀ ep, GetEndpointByNameAny m n = Some ep →
     let deadline := Add now (cooldownDuration m ep) in
     let m' := (TriggerRequestFailover m now now' n reason).1 in
     deadline ≠ zeroTime →
     GetEndpointCooldownInfo m' t n =
       (bool_decide (t < deadline), deadline, reason)).
Proof.
  split; [|split].
  - unfold GetEndpointCooldownInfo. by intros ->.
  - unfold GetEndpointCooldownInfo, IsEndpointInCooldown.
    by destruct (GetEndpointByNameAny m n).
  - intros ep Hg deadline m' Hnz.
    destruct (TriggerRequestFailover_lookup m now now' n reason ep Hg)
      as [Hlook _].
    fold m' deadline in Hlook. specialize (Hlook n).
    rewrite decide_True in Hlook by done.
    unfold GetEndpointCooldownInfo. rewrite Hlook.
    rewrite inCooldown_setCooldown. simpl. f_equal. f_equal.
    unfold IsZero, Before, zeroTime in *. apply Z.eqb_neq in Hnz.
    rewrite Hnz. simpl.
    case_bool_decide; [by apply Z.ltb_lt|by apply Z.ltb_ge; lia].
Qed.

(** X23.  [ManualActivateGroup] and [ManualActivateGroupWithForce] fail
    exactly when the group manager does, and then leave the endpoint list
    as it was; when they succeed, the endpoint of that name is reported in
    cooldown at no time afterwards.  [ManualPauseGroup] and
    [ManualResumeGroup] pass the group manager's verdict on and never
    change the endpoint list, so they clear no cooldown. *)
Theorem X23_group_controls m n force d :
  let plain := ManualActivateGroup m n in
  let forced := ManualActivateGroupWithForce m n force in
  let paused := ManualPauseGroup m n d in
  let resumed := ManualResumeGroup m n in
  (plain.2 = None ↔ (gmManualActivateGroup (groupManager m) n).2 = None) ∧
  (forced.2 = None ↔
   (gmManualActivateGroupWithForce (groupManager m) n force).2 = None) ∧
  (plain.2 = None → ∀ t, IsEndpointInCooldown plain.1 t n = false) ∧
  (forced.2 = None → ∀ t, IsEndpointInCooldown forced.1 t n = false) ∧
  (plain.2 ≠ None → endpoints plain.1 = endpoints m) ∧
  (forced.2 ≠ None → endpoints forced.1 = endpoints m) ∧
  endpoints paused.1 = endpoints m ∧ endpoints resumed.1 = endpoints m ∧
  (paused.2 = None ↔ (gmManualPauseGroup (groupManager m) n d).2 = None) ∧
  (resumed.2 = None ↔ (gmManualResumeGroup (groupManager m) n).2 = None).
Proof.
  cbv zeta.
  unfold ManualActivateGroup, ManualActivateGroupWithForce, ManualPauseGroup,
    ManualResumeGroup.
  destruct (gmManualActivateGroup (groupManager m) n) as [g1 [e1|]];
  destruct (gmManualActivateGroupWithForce (groupManager m) n force)
    as [g2 [e2|]];
  destruct (gmManualPauseGroup (groupManager m) n d) as [g3 [e3|]];
  destruct (gmManualResumeGroup (groupManager m) n) as [g4 [e4|]];
  simpl; repeat split; try done;
    intros _ t;
    first
      [ apply (zero_deadline_not_cooling
                 (ClearEndpointCooldown
                    (withEndpoints m (endpoints m) g1 (keyManager m)) n));
        apply ClearEndpointCooldown_lookup
      | apply (zero_deadline_not_cooling
                 (ClearEndpointCooldown
                    (withEndpoints m (endpoints m) g2 (keyManager m)) n));
        apply ClearEndpointCooldown_lookup ].
Qed.

End cooldown.

(** ** Credentials *)

Lemma keyEntries_lookup active i keys k t :
  keys !! k = Some t →
  keyEntries active i keys !! k =
    Some {| ke_index := i + Z.of_nat k; ke_name := KeyName t;
            ke_masked := maskKey (Value t);
            ke_is_active := bool_decide (active = Some (i + Z.of_nat k)) |}.
Proof.
  revert i k. induction keys as [|x keys IH]; intros i [|k] Hk;
    simplify_eq/=.
  - rewrite Z.add_0_r. do 2 f_equal.
    destruct active as [a|]; [|done].
    destruct (Z.eqb_spec a i) as [->|Hne]; [by rewrite bool_decide_eq_true_2|].
    rewrite bool_decide_eq_false_2; [done|congruence].
  - rewrite (IH (i + 1) k Hk).
    by replace (i + Z.of_nat (S k)) with (i + 1 + Z.of_nat k) by lia.
Qed.

Lemma keyEntries_length active i keys :
  length (keyEntries active i keys) = length keys.
Proof. revert i. induction keys as [|x keys IH]; intros i; simpl; auto. Qed.

Section credentials.

Context {GM KM : Type} `{!GroupManagerOps GM} `{!KeyManagerOps KM}
        `{!SliceSorter} `{!KeySwitchOps KM}.

Implicit Types m : Manager GM KM.

(** X21.  [SwitchEndpointToken] and [SwitchEndpointApiKey] report a
    missing endpoint, and refuse an endpoint whose credential list is empty
    (also when the single-credential fallback is set), whatever the index;
    in both cases the manager is as it was.  Otherwise the call goes to the
    key manager, whose verdict is passed on; the endpoint list and the group
    manager are never changed. *)
Theorem X21_switch_credentials m name index :
  let rt := SwitchEndpointToken m name index in
  let rk := SwitchEndpointApiKey m name index in
  (GetEndpointByNameAny m name = None →
   rt = (m, Some (ErrBase (ErrEndpointNotFound name))) ∧
   rk = (m, Some (ErrBase (ErrEndpointNotFound name)))) ∧
  (∀ ep, GetEndpointByNameAny m name = Some ep →
     (Tokens (Config ep) = [] → rt = (m, Some (ErrNoMultiToken name))) ∧
     (ApiKeys (Config ep) = [] → rk = (m, Some (ErrNoMultiApiKey name))) ∧
     (Tokens (Config ep) ≠ [] →
      keyManager rt.1 = (SwitchToken (keyManager m) name index).1 ∧
      rt.2 = ErrKeyManager <$> (SwitchToken (keyManager m) name index).2) ∧
     (ApiKeys (Config ep) ≠ [] →
      keyManager rk.1 = (SwitchApiKey (keyManager m) name index).1 ∧
      rk.2 = ErrKeyManager <$> (SwitchApiKey (keyManager m) name index).2)) ∧
  endpoints rt.1 = endpoints m ∧ endpoints rk.1 = endpoints m ∧
  groupManager rt.1 = groupManager m ∧ groupManager rk.1 = groupManager m.
Proof.
  cbv zeta. unfold SwitchEndpointToken, SwitchEndpointApiKey.
  destruct (GetEndpointByNameAny m name) as [ep|]; [|done].
  split; [done|].
  destruct (SwitchToken (keyManager m) name index) as [km1 e1].
  destruct (SwitchApiKey (keyManager m) name index) as [km2 e2].
  split.
  - intros ? [= <-].
    destruct (Tokens (Config ep)), (ApiKeys (Config ep)); simpl; done.
  - destruct (Tokens (Config ep)), (ApiKeys (Config ep)); simpl; done.
Qed.

(** X22.  [GetEndpointKeysInfo] of a missing name is nil.  For an existing
    endpoint the token list has one entry per configured token, in order:
    entry [k] carries index [k], the token's name, the mask of its value,
    and is active exactly when the key manager's active token index is [k],
    so at most one entry is active.  With no configured tokens the list is
    empty, or the single entry "default" (index 0, active) masking the
    fallback token when that is set.  Switching is offered only with more
    than one token or more than one API key. *)
Theorem X22_keys_info m name :
  (GetEndpointByNameAny m name = None → GetEndpointKeysInfo m name = None) ∧
  (∀ ep, GetEndpointByNameAny m name = Some ep →
     ∃ info, GetEndpointKeysInfo m name = Some info ∧
       let active :=
         ActiveTokenIndex <$> GetEndpointKeyState (keyManager m) name in
       (Tokens (Config ep) ≠ [] →
        length (ki_tokens info) = length (Tokens (Config ep)) ∧
        (∀ k t, Tokens (Config ep) !! k = Some t →
           ki_tokens info !! k =
             Some {| ke_index := Z.of_nat k; ke_name := KeyName t;
                     ke_masked := maskKey (Value t);
                     ke_is_active :=
                       bool_decide (active = Some (Z.of_nat k)) |}) ∧
        (∀ j k e1 e2, ki_tokens info !! j = Some e1 →
           ki_tokens info !! k = Some e2 →
           ke_is_active e1 = true → ke_is_active e2 = true → j = k)) ∧
       (Tokens (Config ep) = [] →
        ki_tokens info =
          if decide (Token (Config ep) = "") then []
          else [{| ke_index := 0; ke_name := "default";
                   ke_masked := maskKey (Token (Config ep));
                   ke_is_active := true |}]) ∧
       (ki_supports_switching info = true ↔
        (1 < length (Tokens (Config ep)))%nat ∨
        (1 < length (ApiKeys (Config ep)))%nat)).
Proof.
  unfold GetEndpointKeysInfo.
  destruct (GetEndpointByNameAny m name) as [ep0|]; [|done].
  split; [done|]. intros ep [= <-]. eexists. split; [reflexivity|].
  cbv zeta. simpl. split; [|split].
  - intros Hne. unfold keyList.
    assert (Hlen : length (keyEntries
              (ActiveTokenIndex <$> GetEndpointKeyState (keyManager m) name)
              0 (Tokens (Config ep0))) = length (Tokens (Config ep0)))
      by apply keyEntries_length.
    destruct (Z.eqb_spec (Z.of_nat (length (keyEntries
              (ActiveTokenIndex <$> GetEndpointKeyState (keyManager m) name)
              0 (Tokens (Config ep0))))) 0) as [Hz|Hnz].
    { rewrite Hlen in Hz. by destruct (Tokens (Config ep0)). }
    simpl. split; [done|].
    assert (Hk : ∀ k e, keyEntries
              (ActiveTokenIndex <$> GetEndpointKeyState (keyManager m) name)
              0 (Tokens (Config ep0)) !! k = Some e →
              ke_index e = Z.of_nat k ∧
              (ke_is_active e = true →
               ActiveTokenIndex <$> GetEndpointKeyState (keyManager m) name =
               Some (Z.of_nat k))).
    { intros k e He.
      assert (Hlt : (k < length (Tokens (Config ep0)))%nat).
      { rewrite <- Hlen. by eapply lookup_lt_Some. }
      destruct (lookup_lt_is_Some_2 _ _ Hlt) as [t Ht].
      rewrite (keyEntries_lookup _ 0 _ _ _ Ht) in He. injection He as <-.
      simpl. split; [lia|]. intros Ha%bool_decide_eq_true_1.
      by rewrite Ha. }
    split.
    + intros k t Ht. by rewrite (keyEntries_lookup _ 0 _ _ _ Ht).
    + intros j k e1 e2 H1 H2 A1 A2.
      destruct (Hk j e1 H1) as [_ Hj]. destruct (Hk k e2 H2) as [_ Hk'].
      specialize (Hj A1). specialize (Hk' A2). rewrite Hj in Hk'.
      injection Hk' as Hk'. lia.
  - intros ->. unfold keyList. simpl.
    destruct (decide (Token (Config ep0) = "")) as [->|Hne]; [done|].
    by rewrite bool_decide_eq_false_2.
  - rewrite orb_true_iff, !Nat.ltb_lt. done.
Qed.

End credentials.

(** ** Order of equal priorities *)

Section stability.

Import GoSort.

Context {A : Type} (key : A → Z).

#[local] Abbreviation keyLess := (λ a b : A, key a <? key b).
#[local] Abbreviation sameKey p := (λ a : A, key a =? p).

Lemma sink_keeps_class p x rp :
  List.filter (sameKey p) (sink keyLess x rp) =
  List.filter (sameKey p) (x :: rp).
Proof.
  induction rp as [|y rp IH]; [done|]. simpl sink.
  destruct (Z.ltb_spec (key x) (key y)) as [Hlt|Hge]; [|done].
  simpl in *. rewrite IH.
  destruct (Z.eqb_spec (key x) p) as [Hx|Hx],
           (Z.eqb_spec (key y) p) as [Hy|Hy]; try done. lia.
Qed.

Lemma fold_sink_keeps_class p l acc :
  List.filter (sameKey p) (fold_left (λ rp x, sink keyLess x rp) l acc) =
  List.filter (sameKey p) (reverse l ++ acc).
Proof.
  revert acc. induction l as [|x l IH]; intros acc; [done|]. simpl.
  rewrite IH, reverse_cons, <- app_assoc. simpl.
  rewrite !List.filter_app. f_equal. apply sink_keeps_class.
Qed.

Lemma filter_reverse (f : A → bool) l :
  List.filter f (reverse l) = reverse (List.filter f l).
Proof.
  induction l as [|x l IH]; [done|]. simpl. rewrite reverse_cons.
  rewrite List.filter_app, IH. simpl.
  destruct (f x); [by rewrite reverse_cons|by rewrite app_nil_r].
Qed.

Lemma insertionSort_keeps_class p l :
  List.filter (sameKey p) (insertionSortLessFunc keyLess l) =
  List.filter (sameKey p) l.
Proof.
  unfold insertionSortLessFunc.
  rewrite filter_reverse, fold_sink_keeps_class, app_nil_r, filter_reverse.
  apply reverse_involutive.
Qed.

End stability.

(** X24.  With Go's [sort.Slice] on at most 12 healthy endpoints (the
    range where it is the insertion sort), strategy "priority" keeps the
    endpoints of each priority in the order in which they were given. *)
Theorem X24_equal_priority_keeps_order {GM KM : Type}
    (m : Manager GM KM) (healthy : list Endpoint) (p : Z) :
  Type_ (Strategy (config m)) = "priority" →
  (length healthy ≤ 12)%nat →
  List.filter (λ ep, Priority (Config ep) =? p)
    (sortHealthyEndpoints (H := GoSort.goSliceSorter) m healthy) =
  List.filter (λ ep, Priority (Config ep) =? p) healthy.
Proof.
  intros Hst _. unfold sortHealthyEndpoints.
  rewrite bool_decide_eq_true_2 by done.
  apply (insertionSort_keeps_class (λ ep, Priority (Config ep))).
Qed.

(** ** The further methods on concrete endpoints *)

Section samples.

Import GoSort GoSortProps.

Ltac by_eval := apply (bool_decide_unpack _); vm_compute; exact I.

Lemma X8_remove_endpoint_witness :
  let m := sampleManager "priority" 0 [epA; epC; epD] ["a"] in
  RemoveEndpoint m "zz" = (m, Some (ErrEndpointNotFound "zz")) ∧
  (RemoveEndpoint m "c").2 = None ∧
  GetEndpointByNameAny (RemoveEndpoint m "c").1 "c" = None ∧
  GetEndpointByNameAny (RemoveEndpoint m "c").1 "d" = Some epD.
Proof.
  intros m.
  destruct (X8_remove_endpoint m "zz") as [Hmiss _].
  destruct (X8_remove_endpoint m "c") as [_ Hhit].
  split; [apply Hmiss; by_eval|].
  destruct Hhit as (Hok & _ & Hother & Hgone); [by_eval|].
  split; [exact Hok|]. split; [apply Hgone; by_eval|].
  rewrite Hother by discriminate. vm_compute. reflexivity.
Defined.

Lemma X9_add_then_remove_witness :
  let m := sampleManager "priority" 0 [epA; epC] ["a"] in
  let cfg := sampleConfig "b" 2 None None in
  (AddEndpoint m 100 cfg).2 = None ∧
  (RemoveEndpoint (AddEndpoint m 100 cfg).1 "b").2 = None ∧
  endpoints (RemoveEndpoint (AddEndpoint m 100 cfg).1 "b").1 = [epA; epC].
Proof.
  intros m cfg. apply (X9_add_then_remove m 100 cfg). by_eval.
Defined.

Lemma X10_add_endpoint_lookup_witness :
  let m := sampleManager "priority" 0 [epA; epC] ["a"] in
  let cfg := sampleConfig "b" 2 None None in
  let m' := (AddEndpoint m 100 cfg).1 in
  (∃ ep, GetEndpointByNameAny m' "b" = Some ep ∧ Config ep = cfg ∧
         Healthy (Status ep) = false ∧ NeverChecked (Status ep) = true) ∧
  GetEndpointByNameAny m' "c" = Some epC ∧ GetEndpointCount m' = 3.
Proof.
  intros m cfg m'.
  destruct (X10_add_endpoint_lookup m 100 cfg) as (Hnew & Hold & Hcount);
    [by_eval|].
  split.
  - destruct Hnew as (ep & H1 & H2 & H3 & H4 & _). by exists ep.
  - split; [|exact Hcount].
    unfold m'. rewrite (Hold "c") by discriminate. vm_compute. reflexivity.
Defined.

Lemma X11_update_endpoint_config_witness :
  let m := sampleManager "priority" 0 [epA; epE] ["a"] in
  let cfg := sampleConfig "renamed" 9 (Some false) None in
  UpdateEndpointConfig m "zz" cfg = (m, Some (ErrEndpointNotFound "zz")) ∧
  GetEndpointByNameAny (UpdateEndpointConfig m "e" cfg).1 "e" =
    Some {| Config := withName "e" cfg; Status := Status epE |} ∧
  GetEndpointByNameAny (UpdateEndpointConfig m "e" cfg).1 "renamed" = None.
Proof.
  intros m cfg.
  destruct (X11_update_endpoint_config m "zz" cfg) as [Hmiss _].
  destruct (X11_update_endpoint_config m "e" cfg) as [_ Hhit].
  split; [apply Hmiss; vm_compute; reflexivity|].
  destruct (Hhit epE) as (_ & Hnew & Hother & _); [vm_compute; reflexivity|].
  split; [exact Hnew|].
  rewrite Hother by discriminate. vm_compute. reflexivity.
Defined.

Lemma X12_update_endpoint_priority_witness :
  let m := sampleManager "priority" 0 [epA; epC] ["a"] in
  UpdateEndpointPriority m "zz" 0 = (m, Some ErrPriorityBelowOne) ∧
  UpdateEndpointPriority m "zz" 4 =
    (m, Some (ErrBase (ErrEndpointNotFound "zz"))) ∧
  GetEndpointByNameAny (UpdateEndpointPriority m "c" 1).1 "c" =
    Some (setPriority 1 epC) ∧
  names (UpdateEndpointPriority m "c" 1).1 = ["a"; "c"].
Proof.
  intros m.
  destruct (X12_update_endpoint_priority m "zz" 0) as (Hlow & _ & _).
  destruct (X12_update_endpoint_priority m "zz" 4) as (_ & Hmiss & _).
  destruct (X12_update_endpoint_priority m "c" 1) as (_ & _ & Hhit).
  split; [apply Hlow; lia|].
  split; [apply Hmiss; [lia|vm_compute; reflexivity]|].
  destruct (Hhit ltac:(lia) epC) as (_ & Hnew & _ & Hnames);
    [vm_compute; reflexivity|].
  split; [exact Hnew|exact Hnames].
Defined.

Lemma X13_synced_endpoints_not_selectable_witness :
  let m := sampleManager "priority" 0 [] ["a"; "c"] in
  let m' := SyncEndpoints m 100 [sampleConfig "a" 1 None None;
                                  sampleConfig "c" 3 None None] in
  names m' = ["a"; "c"] ∧ GetHealthyEndpoints m' 200 201 = [] ∧
  selectNextFailoverEndpoint m' 200 "a" = "".
Proof.
  intros m m'. split; [vm_compute; reflexivity|].
  apply (X13_synced_endpoints_not_selectable m 100
           [sampleConfig "a" 1 None None; sampleConfig "c" 3 None None]
           200 201 "a").
  intros ep Hin. apply list_elem_of_In in Hin.
  apply filter_In in Hin as [Hin _]. by apply list_elem_of_In.
Defined.

Lemma X14_selector_membership_witness :
  let m := sampleManager "priority" 0 [epA; epC; epE] ["e"] in
  (∀ ep, ep ∈ GetHealthyEndpoints m 5000 5001 → Healthy (Status ep) = true) ∧
  (∀ ep, ep ∈ GetHealthyEndpoints m 5000 5001 ↔
     ep ∈ [epA; epC; epE] ∧
     (Name (Config ep) ∉ ["e"]) ∧
     failoverEnabled ep = true ∧ inCooldown 5001 ep = false ∧
     Healthy (Status ep) = true) ∧
  GetHealthyEndpoints m 5000 5001 = [epA; epC].
Proof.
  intros m.
  destruct (X14_selector_membership m 5000 5001) as (Hh & _ & Hfail).
  split; [exact Hh|]. split; [|vm_compute; reflexivity].
  destruct Hfail as [_ Hon].
  - intros a Ha [_ Hc].
    apply list_elem_of_In in Ha. vm_compute in Ha.
    destruct Ha as [<-|[]]. vm_compute in Hc. discriminate Hc.
  - apply Hon. reflexivity.
Defined.

Lemma X15_next_failover_is_best_witness :
  let m := sampleManager "priority" 0 [epE; epC; epD; epA] ["e"] in
  selectNextFailoverEndpoint m 5000 "a" = "c" ∧
  eligible 5000 "a" epC ∧
  (∀ ep', ep' ∈ endpoints m → eligible 5000 "a" ep' →
          Priority (Config epC) ≤ Priority (Config ep')).
Proof.
  intros m.
  destruct (X15_next_failover_is_best m 5000 "a") as [Hbest _].
  destruct (Hbest epC) as (_ & He & Hname & Hmin); [vm_compute; reflexivity|].
  split; [exact Hname|]. split; [exact He|exact Hmin].
Defined.

Lemma X16_failover_outcomes_witness :
  let m := sampleManager "priority" 0 [epA; epC; epD] ["a"] in
  TriggerRequestFailover m 1000 1001 "zz" "boom" =
    (m, ("", Some (ErrEndpointMissing "zz"))) ∧
  (TriggerRequestFailover m 1000 1001 "a" "boom").2 = ("c", None) ∧
  names (TriggerRequestFailover m 1000 1001 "a" "boom").1 = ["a"; "c"; "d"].
Proof.
  intros m.
  destruct (X16_failover_outcomes m 1000 1001 "zz" "boom") as [Hmiss _].
  destruct (X16_failover_outcomes m 1000 1001 "a" "boom") as [_ Hhit].
  split; [apply Hmiss; vm_compute; reflexivity|].
  split; [vm_compute; reflexivity|].
  destruct Hhit as (_ & _ & Hnames & _); [by eexists|exact Hnames].
Defined.

Lemma X17_failed_endpoint_sits_out_witness :
  let m := sampleManager "priority" 0 [epA; epC; epD] ["d"] in
  let m' := (TriggerRequestFailover m 1000 1001 "d" "boom").1 in
  IsEndpointInCooldown m' 5999 "d" = true ∧
  IsEndpointInCooldown m' 6000 "d" = false ∧
  (∀ ep', GetEndpointByNameAny m' "d" = Some ep' →
          ep' ∉ GetHealthyEndpoints m' 2000 2001).
Proof.
  intros m m'.
  destruct (X17_failed_endpoint_sits_out m 1000 1001 "d" "boom" epD)
    as (Hin & Hout & Hsel); [vm_compute; reflexivity|vm_compute; congruence|].
  split; [apply Hin; vm_compute; reflexivity|].
  split; [apply Hout; vm_compute; congruence|].
  intros ep'. apply Hsel; vm_compute; reflexivity.
Defined.

Lemma X18_clear_cooldown_witness :
  let m := sampleManager "priority" 0 [epA; epE] ["a"] in
  IsEndpointInCooldown m 5000 "e" = true ∧
  IsEndpointInCooldown (ClearEndpointCooldown m "e") 5000 "e" = false ∧
  ClearEndpointCooldown m "zz" = m.
Proof.
  intros m.
  destruct (X18_clear_cooldown m "e") as (Hnot & _).
  destruct (X18_clear_cooldown m "zz") as (_ & _ & Hmiss & _).
  split; [vm_compute; reflexivity|]. split; [apply Hnot|].
  apply Hmiss. vm_compute. reflexivity.
Defined.

Lemma X19_cooldown_info_witness :
  let m := sampleManager "priority" 0 [epA; epC; epD] ["d"] in
  let m' := (TriggerRequestFailover m 1000 1001 "d" "boom").1 in
  GetEndpointCooldownInfo m 2000 "zz" = (false, zeroTime, "") ∧
  GetEndpointCooldownInfo m' 2000 "d" = (true, 6000, "boom").
Proof.
  intros m m'.
  destruct (X19_cooldown_info m 1000 1001 "zz" "boom" 2000) as (Hmiss & _).
  destruct (X19_cooldown_info m 1000 1001 "d" "boom" 2000) as (_ & _ & Hset).
  split; [apply Hmiss; vm_compute; reflexivity|].
  apply (Hset epD); [vm_compute; reflexivity|vm_compute; congruence].
Defined.

Lemma X20_real_time_variant_ignores_cooldown_witness :
  let m := sampleManager "priority" 0 [epA; epE] ["a"; "e"] in
  (GetFastestEndpointsWithRealTimeTest m () 5001).2 = [epA; epE] ∧
  GetHealthyEndpoints m 5000 5001 = [epA] ∧
  epE ∈ (GetFastestEndpointsWithRealTimeTest m () 5001).2 ∧
  epE ∉ GetHealthyEndpoints m 5000 5001.
Proof.
  intros m.
  destruct (X20_real_time_variant_ignores_cooldown m () 5001) as [_ Hact].
  { left. vm_compute. congruence. }
  split; [vm_compute; reflexivity|]. split; [vm_compute; reflexivity|].
  destruct Hact as [_ Hcool].
  { exists epA. split; [by_eval|reflexivity]. }
  apply (Hcool 5000 epE); [by_eval|reflexivity|vm_compute; reflexivity].
Defined.

Lemma X21_switch_credentials_witness :
  let m := sampleKeyedManager [epK] ∅ in
  SwitchEndpointToken m "zz" 0 =
    (m, Some (ErrBase (ErrEndpointNotFound "zz"))) ∧
  SwitchEndpointApiKey m "k" 0 = (m, Some (ErrNoMultiApiKey "k")) ∧
  (SwitchEndpointToken m "k" 1).2 = None ∧
  (SwitchEndpointToken m "k" (-1)).2 = Some (ErrKeyManager "index out of range") ∧
  endpoints (SwitchEndpointToken m "k" 1).1 = [epK].
Proof.
  intros m.
  destruct (X21_switch_credentials m "zz" 0) as (Hmiss & _).
  destruct (X21_switch_credentials m "k" 0) as (_ & Hk0 & _).
  destruct (X21_switch_credentials m "k" 1) as (_ & Hk1 & Heps & _).
  destruct (X21_switch_credentials m "k" (-1)) as (_ & Hkm & _).
  split; [apply Hmiss; vm_compute; reflexivity|].
  split.
  { destruct (Hk0 epK) as (_ & Hno & _); [vm_compute; reflexivity|].
    apply Hno. reflexivity. }
  split.
  { destruct (Hk1 epK) as (_ & _ & Hgo & _); [vm_compute; reflexivity|].
    destruct Hgo as [_ ->]; [discriminate|]. vm_compute. reflexivity. }
  split; [|exact Heps].
  destruct (Hkm epK) as (_ & _ & Hgo & _); [vm_compute; reflexivity|].
  destruct Hgo as [_ ->]; [discriminate|]. vm_compute. reflexivity.
Defined.

Lemma X22_keys_info_witness :
  let m := (SwitchEndpointToken (sampleKeyedManager [epK] ∅) "k" 1).1 in
  GetEndpointKeysInfo m "zz" = None ∧
  ∃ info, GetEndpointKeysInfo m "k" = Some info ∧
    ki_tokens info =
      [ {| ke_index := 0; ke_name := "main"; ke_masked := "tok-****7890";
           ke_is_active := false |};
        {| ke_index := 1; ke_name := "spare"; ke_masked := "****";
           ke_is_active := true |} ] ∧
    length (ki_tokens info) = 2%nat ∧
    ki_api_keys info =
      [ {| ke_index := 0; ke_name := "default"; ke_masked := "sk-f****-key";
           ke_is_active := true |} ].
Proof.
  intros m.
  destruct (X22_keys_info m "zz") as [Hmiss _].
  destruct (X22_keys_info m "k") as [_ Hhit].
  split; [apply Hmiss; vm_compute; reflexivity|].
  destruct (Hhit epK) as (info & Hinfo & Htok & _); [vm_compute; reflexivity|].
  exists info. split; [exact Hinfo|].
  destruct Htok as (Hlen & _); [discriminate|].
  assert (Hi : Some info = GetEndpointKeysInfo m "k") by (by rewrite Hinfo).
  vm_compute in Hi. injection Hi as ->.
  split; [reflexivity|]. split; [exact Hlen|reflexivity].
Defined.

Lemma X23_group_controls_witness :
  let m := sampleManager "priority" 0 [epA; epE] ["a"] in
  (ManualActivateGroupWithForce m "e" true).2 = None ∧
  IsEndpointInCooldown (ManualActivateGroupWithForce m "e" true).1 5000 "e" =
    false ∧
  IsEndpointInCooldown (ManualActivateGroup m "e").1 5000 "e" = false ∧
  IsEndpointInCooldown (ManualPauseGroup m "e" 3600).1 5000 "e" = true ∧
  endpoints (ManualResumeGroup m "e").1 = [epA; epE].
Proof.
  intros m.
  destruct (X23_group_controls m "e" true 3600)
    as (Hp & Hf & Hpc & Hfc & _ & _ & Hpause & Hresume & _).
  assert (Hok : (ManualActivateGroupWithForce m "e" true).2 = None).
  { apply Hf. vm_compute. reflexivity. }
  split; [exact Hok|]. split; [apply (Hfc Hok)|].
  split; [apply Hpc, Hp; vm_compute; reflexivity|].
  split; [vm_compute; reflexivity|exact Hresume].
Defined.

Lemma X24_equal_priority_keeps_order_witness :
  let m := sampleManager "priority" 0 [] [] in
  sortHealthyEndpoints m [epC; epB; epD; epA] = [epB; epA; epD; epC] ∧
  List.filter (λ ep, Priority (Config ep) =? 1)
    (sortHealthyEndpoints m [epC; epB; epD; epA]) = [epB; epA].
Proof.
  intros m. split; [vm_compute; reflexivity|].
  rewrite (X24_equal_priority_keeps_order m [epC; epB; epD; epA] 1);
    [reflexivity|reflexivity|simpl; lia].
Defined.

End samples.

End EndpointExtra.




